(** * cacache, lib/content/read.js: integrity-verified reads from the content store

    A shallow embedding of [lib/content/read.js].  JavaScript values,
    exceptions and promises are modelled explicitly; the modules the file
    requires ([ssri], [graceful-fs], [./path], [stream], [mississippi],
    [process]) are collaborators gathered in the record [Env]; every effect
    goes through an abstract [World].  The two resolvers call themselves on
    each candidate of a descriptor; here they recurse on a fuel, and two
    levels are shown to be enough.  *)

From Stdlib Require Import ZArith String List Lia.
From stdpp Require Import base option list strings pretty.

Open Scope string_scope.
Open Scope Z_scope.

(** ** JavaScript values *)

(** One digest entry of an integrity descriptor (ssri's [Hash]). *)
Record Hash := mkHash {
  algorithm : string;
  digest : string;
  options : list string
}.

(** A parsed integrity descriptor (ssri's [Integrity]): an object whose keys,
    in insertion order, are algorithm names and whose values are arrays of
    digest entries. *)
Definition Integrity := list (string * list Hash).

(** [sri[algo]]: the first binding of the key, [None] for [undefined]. *)
Fixpoint sri_get (sri : Integrity) (algo : string) : option (list Hash) :=
  match sri with
  | [] => None
  | (k, ds) :: rest => if String.eqb k algo then Some ds else sri_get rest algo
  end.

(** An [Error] object with the properties this module reads or writes. *)
Record Error := mkError {
  name : string;
  message : string;
  code : option string;
  expected : option Z;
  found : option Z;
  err_sri : option Hash;
  err_path : option string
}.

(** The result of [lstat]; only [size] is read. *)
Record Stats := mkStats { stat_size : Z }.

(** The values that reach this module.  Numbers are the integer-valued ones
    (byte counts); a [Buffer] is its bytes. *)
#[warnings="-register-all"]
Inductive value : Type :=
| VUndefined
| VNull
| VBool (b : bool)
| VNumber (n : Z)
| VString (s : string)
| VBuffer (data : list Byte.byte)
| VHash (h : Hash)
| VStat (st : Stats)
| VObject (props : list (string * value))
| VError (e : Error).

(** What the module accepts as [integrity]: nothing, a textual descriptor,
    one digest entry, or a descriptor object. *)
Inductive sri_input : Type :=
| SriAbsent
| SriText (s : string)
| SriHash (h : Hash)
| SriIntegrity (i : Integrity).

(** [!integrity] *)
Definition falsy_input (i : sri_input) : bool :=
  match i with
  | SriAbsent => true
  | SriText s => String.eqb s ""
  | _ => false
  end.

(** JavaScript truthiness, as tested by [if (v)]. *)
Definition truthy (v : value) : bool :=
  match v with
  | VUndefined | VNull => false
  | VBool b => b
  | VNumber n => negb (n =? 0)
  | VString s => negb (String.eqb s "")
  | _ => true
  end.

(** [v instanceof Error] *)
Definition instanceof_Error (v : value) : bool :=
  match v with VError _ => true | _ => false end.

(** [typeof v === 'number'] *)
Definition typeof_number (v : value) : bool :=
  match v with VNumber _ => true | _ => false end.

Definition new_Error (msg : string) : Error :=
  mkError "Error" msg None None None None None.

Definition TypeError (msg : string) : value :=
  VError (mkError "TypeError" msg None None None None None).

(** ** Completions: synchronous code and promises *)

(** The completion of synchronous code. *)
Inductive Result (A : Type) : Type :=
| Return (a : A)
| Throw (err : value).
Arguments Return {A} a.
Arguments Throw {A} err.

(** The state of a promise once the work behind it has been given its turn. *)
Inductive Settled (A : Type) : Type :=
| Fulfilled (a : A)
| Rejected (err : value)
| Pending.
Arguments Fulfilled {A} a.
Arguments Rejected {A} err.
Arguments Pending {A}.

Fixpoint assoc_get (props : list (string * value)) (k : string) : value :=
  match props with
  | [] => VUndefined
  | (k', v) :: rest => if String.eqb k' k then v else assoc_get rest k
  end.

(** [v.code]: a [TypeError] on [undefined] and [null], [undefined] on the
    other values without such a property. *)
Definition get_code (v : value) : Result value :=
  match v with
  | VUndefined => Throw (TypeError "Cannot read property 'code' of undefined")
  | VNull => Throw (TypeError "Cannot read property 'code' of null")
  | VError e => Return (match code e with Some c => VString c | None => VUndefined end)
  | VObject props => Return (assoc_get props "code")
  | _ => Return VUndefined
  end.

(** [v === s] for a string literal [s]. *)
Definition strict_eq_str (v : value) (s : string) : bool :=
  match v with VString s' => String.eqb s' s | _ => false end.

(** [results.find(p)] for a predicate that may throw: the first element on
    which [p] is true, [undefined] when there is none. *)
Fixpoint array_find (p : value -> Result bool) (l : list value) : Result value :=
  match l with
  | [] => Return VUndefined
  | r :: rest =>
      match p r with
      | Throw e => Throw e
      | Return true => Return r
      | Return false => array_find p rest
      end
  end.

(** ** Error classifiers *)

(** [pretty] prints every digit of a number; JavaScript does so below 1e21
    and switches to the exponent form from there on, so the text of the
    message is the one of JavaScript for sizes below 1e21. *)
Definition sizeError (expected0 found0 : Z) : value :=
  VError (mkError "Error"
    ("Bad data size: expected inserted data to be " ++ pretty expected0
       ++ " bytes, but got " ++ pretty found0 ++ " instead")
    (Some "EBADSIZE") (Some expected0) (Some found0) None None).

Definition integrityError (hash_toString : Hash -> string) (sri : Hash) (path : string) : value :=
  VError (mkError "Error"
    ("Integrity verification failed for " ++ hash_toString sri ++ " (" ++ path ++ ")")
    (Some "EINTEGRITY") None None (Some sri) (Some path)).

(** [ReadOpts]: the only recognised option is [size]. *)
Record ReadOpts := mkReadOpts { opts_size : value }.

Section Model.

Context {World : Type}.

(** Synchronous effectful code, and the work behind a promise. *)
Definition Sync (A : Type) : Type := World -> Result A * World.
Definition Promise (A : Type) : Type := World -> Settled A * World.

Definition ret {A} (a : A) : Sync A := fun w => (Return a, w).
Definition throw {A} (e : value) : Sync A := fun w => (Throw e, w).
Definition lift {A} (r : Result A) : Sync A := fun w => (r, w).

Definition bind {A B} (m : Sync A) (k : A -> Sync B) : Sync B :=
  fun w =>
    match m w with
    | (Return a, w') => k a w'
    | (Throw e, w') => (Throw e, w')
    end.

(** [try { m } catch (err) { h err }] *)
Definition try_catch {A} (m : Sync A) (h : value -> Sync A) : Sync A :=
  fun w =>
    match m w with
    | (Return a, w') => (Return a, w')
    | (Throw e, w') => h e w'
    end.

Definition resolve {A} (a : A) : Promise A := fun w => (Fulfilled a, w).
Definition reject {A} (e : value) : Promise A := fun w => (Rejected e, w).

(** [p.then(k)] *)
Definition then_ {A B} (p : Promise A) (k : A -> Promise B) : Promise B :=
  fun w =>
    match p w with
    | (Fulfilled a, w') => k a w'
    | (Rejected e, w') => (Rejected e, w')
    | (Pending, w') => (Pending, w')
    end.

(** [p.catch(h)] *)
Definition catch_ {A} (p : Promise A) (h : value -> Promise A) : Promise A :=
  fun w =>
    match p w with
    | (Fulfilled a, w') => (Fulfilled a, w')
    | (Rejected e, w') => h e w'
    | (Pending, w') => (Pending, w')
    end.

(** A callback body that runs to completion inside [then]/[catch]. *)
Definition settle {A} (m : Sync A) : Promise A :=
  fun w =>
    match m w with
    | (Return a, w') => (Fulfilled a, w')
    | (Throw e, w') => (Rejected e, w')
    end.

(** [Promise.all(ps)].  The promises settle in the order [sched] (indices into
    [ps]; an index that does not occur never settles, a repeated one settles
    once).  [slots] keeps each settlement at the index of its promise, [rej]
    the first rejection in time. *)
Fixpoint all_settle {A} (sched : list nat) (ps : list (Promise A))
    (slots : list (option (Settled A))) (rej : option value) (w : World)
  : list (option (Settled A)) * option value * World :=
  match sched with
  | [] => (slots, rej, w)
  | i :: sched' =>
      match ps !! i, slots !! i with
      | Some p, Some None =>
          match p w with
          | (Fulfilled a, w') =>
              all_settle sched' ps (<[i := Some (Fulfilled a)]> slots) rej w'
          | (Rejected e, w') =>
              all_settle sched' ps (<[i := Some (Rejected e)]> slots)
                (match rej with Some e0 => Some e0 | None => Some e end) w'
          | (Pending, w') => all_settle sched' ps slots rej w'
          end
      | _, _ => all_settle sched' ps slots rej w
      end
  end.

(** The array [Promise.all] fulfils with, when every slot is fulfilled. *)
Fixpoint fulfilled_values {A} (slots : list (option (Settled A))) : option (list A) :=
  match slots with
  | [] => Some []
  | Some (Fulfilled a) :: rest =>
      match fulfilled_values rest with
      | Some l => Some (a :: l)
      | None => None
      end
  | _ :: _ => None
  end.

Definition promise_all {A} (sched : list nat) (ps : list (Promise A)) : Promise (list A) :=
  fun w =>
    match all_settle sched ps (replicate (length ps) None) None w with
    | (slots, Some e, w') => (Rejected e, w')
    | (slots, None, w') =>
        match fulfilled_values slots with
        | Some vs => (Fulfilled vs, w')
        | None => (Pending, w')
        end
    end.

(** ** Collaborators

    What [read.js] requires from outside: the current platform, the path
    mapper, the integrity-descriptor library, the filesystem primitives and
    the stream plumbing.  Nothing is assumed about them beyond their types. *)

Definition stream := nat.

(** The path mapper is a pure, total function of the store root and a digest
    entry.  [checkData] answers whether the bytes match the entry; like the
    filesystem primitives it goes through the world, so that a statement can
    say whether it was run at all.  [pipe_verified cpath sri size s] is
    [pipe (fs.createReadStream (cpath), ssri.integrityStream ({ integrity:
    sri, size }), s)]. *)
Record Env := mkEnv {
  (* process *)
  platform : string;
  (* ./path *)
  contentPath : string -> Hash -> string;
  (* ssri *)
  parse : sri_input -> Result Integrity;
  pickAlgorithm : Integrity -> Result string;
  toString : Integrity -> string;
  hash_toString : Hash -> string;
  checkData : list Byte.byte -> Hash -> World -> bool * World;
  (* graceful-fs *)
  readFile : string -> Promise (list Byte.byte);
  readFileSync : string -> Sync (list Byte.byte);
  lstat : string -> Promise Stats;
  lstatSync : string -> Sync Stats;
  has_copyFile : bool;
  copyFile : string -> string -> Promise unit;
  copyFileSync : string -> string -> Sync unit;
  (* stream, mississippi *)
  new_PassThrough : World -> stream * World;
  emit_error : stream -> value -> Sync value;
  pipe_verified : value -> value -> value -> stream -> Promise value
}.

Context (E : Env).

(** ** The digest resolver *)

(** [new Promise((resolve, reject) => { try { tryFn().then(resolve).catch(reject) }
    catch (err) { reject(err) } })] *)
Definition new_Promise (tryFn : Result (Promise value)) : Promise value :=
  match tryFn with
  | Return p => catch_ (then_ p resolve) reject
  | Throw err => reject err
  end.

(** The error that replaces a candidate's [ENOENT]. *)
Definition no_match_error (sri : Integrity) : Error :=
  mkError "Error" ("No matching content found for " ++ toString E sri)
    (Some "ENOENT") None None None None.

(** The [catch] put on every candidate: a failure becomes a value. *)
Definition candidate_catch (sri : Integrity) (err : value) : Promise value :=
  settle (lift
    match get_code err with
    | Throw e => Throw e
    | Return c =>
        if strict_eq_str c "ENOENT" then Return (VError (no_match_error sri))
        else Return err
    end).

(** The [then] after [Promise.all]: the decision over the settled candidates. *)
Definition pick_result (results : list value) : Result value :=
  match array_find (fun r => Return (negb (instanceof_Error r))) results with
  | Throw e => Throw e
  | Return result =>
      if truthy result then Return result
      else
        match array_find (fun r =>
                match get_code r with
                | Throw e => Throw e
                | Return c => Return (strict_eq_str c "ENOENT")
                end) results with
        | Throw e => Throw e
        | Return enoentError =>
            if truthy enoentError then Throw enoentError
            else
              match array_find (fun r => Return (instanceof_Error r)) results with
              | Throw e => Throw e
              | Return genericError =>
                  if truthy genericError then Throw genericError
                  else Return VUndefined
              end
        end
  end.

(** [withContentSri (cache, integrity, fn)].  [fuel] bounds the depth of the
    recursion on candidates ([None]: not enough of it); [sched] is the order
    in which the candidates of a fan-out settle. *)
Fixpoint withContentSri (fuel : nat) (cache : string) (integrity : sri_input)
    (fn : string -> Hash -> Promise value) (sched : list nat)
  : option (Promise value) :=
  match fuel with
  | O => None
  | S fuel' =>
      let tryFn : option (Result (Promise value)) :=
        match parse E integrity with
        | Throw e => Some (Throw e)
        | Return sri =>
            match pickAlgorithm E sri with
            | Throw e => Some (Throw e)
            | Return algo =>
                match sri_get sri algo with
                | None => Some (Throw (TypeError "Cannot read property 'length' of undefined"))
                | Some digests =>
                    if (length digests <=? 1)%nat then
                      match digests with
                      | d :: _ => Some (Return (fn (contentPath E cache d) d))
                      | [] => Some (Throw (TypeError "Cannot read property 'algorithm' of undefined"))
                      end
                    else
                      match pickAlgorithm E sri with
                      | Throw e => Some (Throw e)
                      | Return algo' =>
                          match sri_get sri algo' with
                          | None => Some (Throw (TypeError "Cannot read property 'map' of undefined"))
                          | Some metas =>
                              match mapM (fun meta =>
                                      match withContentSri fuel' cache (SriHash meta) fn sched with
                                      | Some p => Some (catch_ p (candidate_catch sri))
                                      | None => None
                                      end) metas with
                              | Some ps =>
                                  Some (Return (then_ (promise_all sched ps)
                                                  (fun results => settle (lift (pick_result results)))))
                              | None => None
                              end
                          end
                      end
                end
            end
        end
      in
      match tryFn with
      | Some r => Some (new_Promise r)
      | None => None
      end
  end.

(** The [for ... of] loop of the blocking resolver: each attempt inside
    [try { return ... } catch (err) { lastErr = err }], then
    [if (lastErr) throw lastErr]. *)
Fixpoint for_of_try (attempts : list (Sync value)) (lastErr : value) : Sync value :=
  match attempts with
  | [] => if truthy lastErr then throw lastErr else ret VUndefined
  | attempt :: rest =>
      fun w =>
        match attempt w with
        | (Return v, w') => (Return v, w')
        | (Throw err, w') => for_of_try rest err w'
        end
  end.

(** [withContentSriSync (cache, integrity, fn)] *)
Fixpoint withContentSriSync (fuel : nat) (cache : string) (integrity : sri_input)
    (fn : string -> Hash -> Sync value) : option (Sync value) :=
  match fuel with
  | O => None
  | S fuel' =>
      match parse E integrity with
      | Throw e => Some (throw e)
      | Return sri =>
          match pickAlgorithm E sri with
          | Throw e => Some (throw e)
          | Return algo =>
              match sri_get sri algo with
              | None => Some (throw (TypeError "Cannot read property 'length' of undefined"))
              | Some digests =>
                  if (length digests <=? 1)%nat then
                    match digests with
                    | d :: _ => Some (fn (contentPath E cache d) d)
                    | [] => Some (throw (TypeError "Cannot read property 'algorithm' of undefined"))
                    end
                  else
                    match pickAlgorithm E sri with
                    | Throw e => Some (throw e)
                    | Return algo' =>
                        match sri_get sri algo' with
                        | None => Some (throw (TypeError "undefined is not iterable"))
                        | Some metas =>
                            match mapM (fun meta =>
                                    withContentSriSync fuel' cache (SriHash meta) fn) metas with
                            | Some attempts => Some (for_of_try attempts VNull)
                            | None => None
                            end
                        end
                    end
              end
          end
      end
  end.

(** ** Access operations *)

(** The callback [read] hands to the resolver. *)
Definition read_fn (opts : ReadOpts) (cpath : string) (sri : Hash) : Promise value :=
  then_ (readFile E cpath) (fun data =>
    settle (fun w =>
      match opts_size opts with
      | VNumber n =>
          if negb (n =? Z.of_nat (length data))
          then (Throw (sizeError n (Z.of_nat (length data))), w)
          else
            match checkData E data sri w with
            | (true, w') => (Return (VBuffer data), w')
            | (false, w') => (Throw (integrityError (hash_toString E) sri cpath), w')
            end
      | _ =>
          match checkData E data sri w with
          | (true, w') => (Return (VBuffer data), w')
          | (false, w') => (Throw (integrityError (hash_toString E) sri cpath), w')
          end
      end)).

Definition read (fuel : nat) (cache : string) (integrity : sri_input)
    (opts : ReadOpts) (sched : list nat) : option (Promise value) :=
  withContentSri fuel cache integrity (read_fn opts) sched.

(** The callback [readSync] hands to the resolver. *)
Definition readSync_fn (opts : ReadOpts) (cpath : string) (sri : Hash) : Sync value :=
  bind (readFileSync E cpath) (fun data w =>
    match opts_size opts with
    | VNumber n =>
        if negb (n =? Z.of_nat (length data))
        then (Throw (sizeError n (Z.of_nat (length data))), w)
        else
          match checkData E data sri w with
          | (true, w') => (Return (VBuffer data), w')
          | (false, w') => (Throw (integrityError (hash_toString E) sri cpath), w')
          end
    | _ =>
        match checkData E data sri w with
        | (true, w') => (Return (VBuffer data), w')
        | (false, w') => (Throw (integrityError (hash_toString E) sri cpath), w')
        end
    end).

Definition readSync (fuel : nat) (cache : string) (integrity : sri_input)
    (opts : ReadOpts) : option (Sync value) :=
  withContentSriSync fuel cache integrity (readSync_fn opts).

(** [({ cpath, sri, stat }) => ...]: destructuring the resolver's result. *)
Definition destructure (r : value) : Result (value * value) :=
  match r with
  | VUndefined => Throw (TypeError "Cannot destructure property 'cpath' of undefined")
  | VNull => Throw (TypeError "Cannot destructure property 'cpath' of null")
  | VObject props => Return (assoc_get props "cpath", assoc_get props "sri")
  | _ => Return (VUndefined, VUndefined)
  end.

Definition readStream_fn (cpath : string) (sri : Hash) : Promise value :=
  then_ (lstat E cpath) (fun stat =>
    resolve (VObject [("cpath", VString cpath); ("sri", VHash sri); ("stat", VStat stat)])).

(** The chain built by [readStream] for the stream [s] it returns. *)
Definition readStream_chain (opts : ReadOpts) (s : stream) (resolved : Promise value)
  : Promise value :=
  catch_
    (then_ resolved (fun r =>
       match destructure r with
       | Throw e => reject e
       | Return (cpath, sri) => pipe_verified E cpath sri (opts_size opts) s
       end))
    (fun err => settle (bind (emit_error E s err) (fun _ => ret VUndefined))).

(** [readStream]: what it returns at once (the stream), together with the
    chain left to run later. *)
Definition readStream (fuel : nat) (cache : string) (integrity : sri_input)
    (opts : ReadOpts) (sched : list nat) : option (Sync (stream * Promise value)) :=
  match withContentSri fuel cache integrity readStream_fn sched with
  | Some resolved =>
      Some (fun w =>
        let '(s, w') := new_PassThrough E w in
        (Return (s, readStream_chain opts s resolved), w'))
  | None => None
  end.

Definition copy_fn (dest : string) (cpath : string) (sri : Hash) : Promise value :=
  then_ (copyFile E cpath dest) (fun _ => resolve VUndefined).

Definition copy (fuel : nat) (cache : string) (integrity : sri_input)
    (dest : string) (opts : ReadOpts) (sched : list nat) : option (Promise value) :=
  withContentSri fuel cache integrity (copy_fn dest) sched.

Definition copySync_fn (dest : string) (cpath : string) (sri : Hash) : Sync value :=
  bind (copyFileSync E cpath dest) (fun _ => ret VUndefined).

Definition copySync (fuel : nat) (cache : string) (integrity : sri_input)
    (dest : string) (opts : ReadOpts) : option (Sync value) :=
  withContentSriSync fuel cache integrity (copySync_fn dest).


(** [{ size: stat.size, sri, stat }] *)
Definition content_info (sri : Hash) (stat : Stats) : value :=
  VObject [("size", VNumber (stat_size stat)); ("sri", VHash sri); ("stat", VStat stat)].

Definition hasContent_fn (cpath : string) (sri : Hash) : Promise value :=
  then_ (lstat E cpath) (fun stat => resolve (content_info sri stat)).

(** The handler of [hasContent]'s [catch], and of the [catch] clause in
    [hasContentSync]. *)
Definition hasContent_handler (err : value) : Sync value :=
  bind (lift (get_code err)) (fun c =>
    if strict_eq_str c "ENOENT" then ret (VBool false)
    else
      bind (lift (get_code err)) (fun c' =>
        if strict_eq_str c' "EPERM" then
          if negb (String.eqb (platform E) "win32") then throw err
          else ret (VBool false)
        else ret VUndefined)).

Definition hasContent (fuel : nat) (cache : string) (integrity : sri_input)
    (sched : list nat) : option (Promise value) :=
  if falsy_input integrity then Some (resolve (VBool false))
  else
    match withContentSri fuel cache integrity hasContent_fn sched with
    | Some p => Some (catch_ p (fun err => settle (hasContent_handler err)))
    | None => None
    end.

Definition hasContentSync_fn (cpath : string) (sri : Hash) : Sync value :=
  try_catch
    (bind (lstatSync E cpath) (fun stat => ret (content_info sri stat)))
    hasContent_handler.

Definition hasContentSync (fuel : nat) (cache : string) (integrity : sri_input)
  : option (Sync value) :=
  if falsy_input integrity then Some (ret (VBool false))
  else withContentSriSync fuel cache integrity hasContentSync_fn.

End Model.

Arguments Env World : clear implicits.
Arguments Sync World A : clear implicits.
Arguments Promise World A : clear implicits.

(** ** A small concrete world

    One instance of the collaborators, used to run the operations on concrete
    inputs: a fixed table of files, and a world that is the log of the
    collaborator calls made so far. *)

Module Toy.

Inductive Event : Type :=
| EvReadFile (path : string)
| EvLstat (path : string)
| EvCopyFile (src dest : string)
| EvCheckData (sri : Hash)
| EvNewStream (s : stream)
| EvEmitError (s : stream) (err : value)
| EvPipe (cpath sri size : value) (s : stream).

Definition W : Type := list Event.

(** A path holds bytes, or every access to it fails with the given code. *)
Inductive Node : Type :=
| File (data : list Byte.byte)
| Fails (errcode : string).

Definition Fs : Type := list (string * Node).

Fixpoint fs_get (fs : Fs) (p : string) : option Node :=
  match fs with
  | [] => None
  | (k, n) :: rest => if String.eqb k p then Some n else fs_get rest p
  end.

Definition fs_err (c p : string) : Error :=
  mkError "Error" (c ++ ": " ++ p) (Some c) None None None None.

Definition fs_error (c p : string) : value := VError (fs_err c p).

(** Any access to [p]: the bytes, or the error. *)
Definition access (fs : Fs) (p : string) : Result (list Byte.byte) :=
  match fs_get fs p with
  | Some (File data) => Return data
  | Some (Fails c) => Throw (fs_error c p)
  | None => Throw (fs_error "ENOENT" p)
  end.

Definition log (w : W) (ev : Event) : W := (w ++ [ev])%list.

Definition sync_of {A B} (ev : Event) (r : Result A) (f : A -> B) : Sync W B :=
  fun w =>
    match r with
    | Return a => (Return (f a), log w (ev))
    | Throw e => (Throw e, log w (ev))
    end.

Definition promise_of {A B} (ev : Event) (r : Result A) (f : A -> B) : Promise W B :=
  fun w =>
    match r with
    | Return a => (Fulfilled (f a), log w (ev))
    | Throw e => (Rejected e, log w (ev))
    end.

Definition hash_str (h : Hash) : string := algorithm h ++ "-" ++ digest h.

(** The digest of the toy: the bytes themselves, read as a string. *)
Definition toy_digest (data : list Byte.byte) : string := string_of_list_byte data.

Definition toy_parse (i : sri_input) : Result Integrity :=
  match i with
  | SriAbsent => Throw (TypeError "Cannot read property 'algorithm' of undefined")
  | SriText s => if String.eqb s "" then Return [] else Return [("sha1", [mkHash "sha1" s []])]
  | SriHash h => Return [(algorithm h, [h])]
  | SriIntegrity sri => Return sri
  end.

Definition toy_pick (sri : Integrity) : Result string :=
  match sri with
  | [] => Throw (VError (new_Error "No algorithms available"))
  | (k, _) :: _ => Return k
  end.

Definition toy_toString (sri : Integrity) : string :=
  String.concat " " (map hash_str (concat (map snd sri))).

Definition env (plat : string) (fs : Fs) (with_copy : bool) : Env W :=
  {| platform := plat;
     contentPath := fun cache h => cache ++ "/" ++ algorithm h ++ "/" ++ digest h;
     parse := toy_parse;
     pickAlgorithm := toy_pick;
     toString := toy_toString;
     hash_toString := hash_str;
     checkData := fun data sri w =>
       (String.eqb (toy_digest data) (digest sri), log w (EvCheckData sri));
     readFile := fun p => promise_of (EvReadFile p) (access fs p) id;
     readFileSync := fun p => sync_of (EvReadFile p) (access fs p) id;
     lstat := fun p =>
       promise_of (EvLstat p) (access fs p) (fun d => mkStats (Z.of_nat (length d)));
     lstatSync := fun p =>
       sync_of (EvLstat p) (access fs p) (fun d => mkStats (Z.of_nat (length d)));
     has_copyFile := with_copy;
     copyFile := fun src dest => promise_of (EvCopyFile src dest) (access fs src) (fun _ => tt);
     copyFileSync := fun src dest => sync_of (EvCopyFile src dest) (access fs src) (fun _ => tt);
     new_PassThrough := fun w => (length w, log w (EvNewStream (length w)));
     emit_error := fun s err w => (Return (VBool true), log w (EvEmitError s err));
     pipe_verified := fun cpath sri size s w =>
       (Fulfilled VUndefined, log w (EvPipe cpath sri size s)) |}.

(** Run an operation from the empty log. *)
Definition run_promise {A} (p : option (Promise W A)) : option (Settled A * W) :=
  match p with Some f => Some (f []) | None => None end.

Definition run_sync {A} (p : option (Sync W A)) : option (Result A * W) :=
  match p with Some f => Some (f []) | None => None end.

(** Two digest entries, for the contents "ab" and "cd"; a descriptor with
    both, and one with the first only. *)
Definition h1 : Hash := mkHash "sha1" "ab" [].
Definition h2 : Hash := mkHash "sha1" "cd" [].
Definition both : Integrity := [("sha1", [h1; h2])].
Definition two : sri_input := SriIntegrity both.
Definition one : sri_input := SriIntegrity [("sha1", [h1])].

Definition bytes_ab : list Byte.byte := list_byte_of_string "ab".
Definition bytes_cd : list Byte.byte := list_byte_of_string "cd".

(** Stores under the root "c": both contents present, one of them, none;
    the first content replaced by other bytes; the first content unreadable. *)
Definition fs_both : Fs := [("c/sha1/ab", File bytes_ab); ("c/sha1/cd", File bytes_cd)].
Definition fs_first : Fs := [("c/sha1/ab", File bytes_ab)].
Definition fs_second : Fs := [("c/sha1/cd", File bytes_cd)].
Definition fs_none : Fs := [].
Definition fs_tampered : Fs := [("c/sha1/ab", File bytes_cd)].
Definition fs_denied (errcode : string) : Fs := [("c/sha1/ab", Fails errcode)].

Definition linux (fs : Fs) : Env W := env "linux" fs true.
Definition no_size : ReadOpts := mkReadOpts VUndefined.

End Toy.

(** ** Reference notions used in the statements *)

(** What this module relies on in [ssri.parse]: a digest entry, handed back to
    the resolver, is a descriptor whose selected algorithm lists that entry
    alone. *)
Definition entry_law {World} (E : Env World) : Prop :=
  forall h : Hash, exists sri algo,
    parse E (SriHash h) = Return sri /\
    pickAlgorithm E sri = Return algo /\
    sri_get sri algo = Some [h].

(** [err.code === c] on an [Error] object. *)
Definition has_code (c : string) (e : Error) : bool :=
  match code e with
  | Some c' => String.eqb c' c
  | None => false
  end.

(** The outcome of the access function for every candidate, at the index of
    the candidate, when the candidates settle in the order [sched]; [None]
    for a candidate that has not settled. *)
Definition candidate_outcomes {World} (E : Env World) (cache : string)
    (fn : string -> Hash -> Promise World value) (ds : list Hash) (sched : list nat)
    (w : World) : list (option (Settled value)) * World :=
  let '(slots, _, w') :=
    all_settle sched ((fun d => fn (contentPath E cache d) d) <$> ds)
      (replicate (length ds) None) None w in
  (slots, w').

(** The access function is run on the candidates [ds] one after the other,
    from the world [w], and throws each time: [errs] are the values thrown,
    in that order, and the last run leaves the world [w']. *)
Inductive all_throw {World} (E : Env World) (cache : string)
    (fn : string -> Hash -> Sync World value)
  : list Hash -> World -> list value -> World -> Prop :=
| all_throw_nil (w : World) : all_throw E cache fn [] w [] w
| all_throw_cons (d : Hash) (ds : list Hash) (w w1 w2 : World)
    (e : value) (es : list value) :
    fn (contentPath E cache d) d w = (Throw e, w1) ->
    all_throw E cache fn ds w1 es w2 ->
    all_throw E cache fn (d :: ds) w (e :: es) w2.

(** The validation of a buffered read in the words of its description: a
    size of number type that differs from the length fails with [EBADSIZE];
    otherwise a failed digest check fails with [EINTEGRITY]; otherwise the
    bytes are the result. *)
Definition validation (size : value) (data : list Byte.byte) (digest_ok : bool)
    (integrity_failure : value) : Result value :=
  if typeof_number size && negb (match size with
                                 | VNumber n => n =? Z.of_nat (length data)
                                 | _ => false
                                 end)
  then Throw (sizeError (match size with VNumber n => n | _ => 0 end)
                (Z.of_nat (length data)))
  else if digest_ok then Return (VBuffer data)
  else Throw integrity_failure.


(** A candidate behind its [catch], as [withContentSri] hands it to
    [Promise.all]. *)
Definition guarded {World} (E : Env World) (cache : string)
    (fn : string -> Hash -> Promise World value) (sri : Integrity) (d : Hash)
  : Promise World value :=
  catch_ (new_Promise (Return (fn (contentPath E cache d) d))) (candidate_catch E sri).

(** What that [catch] makes of a candidate's outcome. *)
Definition guarded_outcome {World} (E : Env World) (sri : Integrity)
    (o : Settled value) : Settled value :=
  match o with
  | Fulfilled a => Fulfilled a
  | Rejected err =>
      match get_code err with
      | Throw t => Rejected t
      | Return c =>
          Fulfilled (if strict_eq_str c "ENOENT" then VError (no_match_error E sri) else err)
      end
  | Pending => Pending
  end.

(** The value a failed candidate leaves in the results: the aggregate error
    in place of an [ENOENT], the error itself otherwise. *)
Definition aggregated {World} (E : Env World) (sri : Integrity) (e : Error) : Error :=
  if has_code "ENOENT" e then no_match_error E sri else e.

(** A settled promise for a completion. *)
Definition settled_of {A} (r : Result A) : Settled A :=
  match r with
  | Return a => Fulfilled a
  | Throw e => Rejected e
  end.

(** [typeof size === 'number' && size !== data.length] *)
Definition size_differs (size : value) (data : list Byte.byte) : bool :=
  match size with
  | VNumber n => negb (n =? Z.of_nat (length data))
  | _ => false
  end.

(** An access function as this module writes them: it fulfils with truthy
    values that are not [Error] objects, and rejects with [Error] objects. *)
Definition well_behaved {World} (fn : string -> Hash -> Promise World value) : Prop :=
  forall cpath d w,
    match fst (fn cpath d w) with
    | Fulfilled v => instanceof_Error v = false /\ truthy v = true
    | Rejected e => exists err, e = VError err
    | Pending => True
    end.

(** The same for the blocking form: what is thrown is an [Error] object. *)
Definition throws_errors {World} (fn : string -> Hash -> Sync World value) : Prop :=
  forall cpath d w e w', fn cpath d w = (Throw e, w') -> exists err, e = VError err.

(** What stops a resolution before the access function is called, if
    anything does: a descriptor that does not parse, no algorithm to pick, no
    entry list under the picked algorithm, or an empty one. *)
Definition resolution_error {World} (E : Env World) (integrity : sri_input)
  : option value :=
  match parse E integrity with
  | Throw e => Some e
  | Return sri =>
      match pickAlgorithm E sri with
      | Throw e => Some e
      | Return algo =>
          match sri_get sri algo with
          | None => Some (TypeError "Cannot read property 'length' of undefined")
          | Some [] => Some (TypeError "Cannot read property 'algorithm' of undefined")
          | Some (_ :: _) => None
          end
      end
  end.

(** * Properties *)

(** ** The decision over settled candidates *)

Lemma array_find_errors_none (es : list Error) :
  array_find (fun r => Return (negb (instanceof_Error r))) (VError <$> es)
  = Return VUndefined.
Proof.
  induction es as [|e es IH]; simpl; [reflexivity | exact IH].
Qed.

Lemma array_find_code (c : string) (es : list Error) :
  array_find (fun r =>
      match get_code r with
      | Throw e => Throw e
      | Return v => Return (strict_eq_str v c)
      end) (VError <$> es)
  = Return (match List.find (has_code c) es with
            | Some e => VError e
            | None => VUndefined
            end).
Proof.
  induction es as [|e es IH]; simpl; [reflexivity|].
  unfold has_code at 1. destruct (code e) as [c'|]; simpl.
  - destruct (String.eqb c' c); [reflexivity | exact IH].
  - exact IH.
Qed.

Lemma array_find_first_error (es : list Error) :
  array_find (fun r => Return (instanceof_Error r)) (VError <$> es)
  = Return (match es with e :: _ => VError e | [] => VUndefined end).
Proof. destruct es; reflexivity. Qed.

(** When every result is an error: the first one with code [ENOENT] if there
    is one, the first one otherwise. *)
Lemma pick_result_errors (es : list Error) :
  pick_result (VError <$> es)
  = match List.find (has_code "ENOENT") es with
    | Some e => Throw (VError e)
    | None =>
        match es with
        | e :: _ => Throw (VError e)
        | [] => Return VUndefined
        end
    end.
Proof.
  unfold pick_result.
  rewrite array_find_errors_none. simpl.
  rewrite array_find_code.
  destruct (List.find (has_code "ENOENT") es) as [e|]; simpl; [reflexivity|].
  rewrite array_find_first_error. destruct es; reflexivity.
Qed.

(** A truthy result that is not an error, with only errors before it, is the
    one picked. *)
Lemma pick_result_first_success (pre : list Error) (v : value) (post : list value) :
  instanceof_Error v = false -> truthy v = true ->
  pick_result ((VError <$> pre) ++ v :: post) = Return v.
Proof.
  intros Hv Ht. unfold pick_result.
  assert (array_find (fun r => Return (negb (instanceof_Error r)))
            ((VError <$> pre) ++ v :: post) = Return v) as ->.
  { induction pre as [|e pre IH]; simpl.
    - rewrite Hv. reflexivity.
    - exact IH. }
  rewrite Ht. reflexivity.
Qed.

(** ** Unfolding the resolvers *)

Lemma mapM_all_Some {A B} (f : A -> option B) (g : A -> B) (l : list A) :
  (forall x, f x = Some (g x)) -> mapM f l = Some (g <$> l).
Proof.
  intros Hf. induction l as [|x l IH]; simpl; [reflexivity|].
  rewrite Hf. simpl. rewrite IH. reflexivity.
Qed.


Section Resolver.

Context {World : Type} (E : Env World).

(** The wrapper promise settles as the promise [tryFn] returned. *)
Lemma new_Promise_run (p : Promise World value) (w : World) :
  new_Promise (Return p) w = p w.
Proof.
  unfold new_Promise, catch_, then_, resolve.
  destruct (p w) as [[a|e|] w']; reflexivity.
Qed.

Lemma guarded_run cache fn sri d w :
  guarded E cache fn sri d w
  = (guarded_outcome E sri (fst (fn (contentPath E cache d) d w)),
     snd (fn (contentPath E cache d) d w)).
Proof.
  unfold guarded, catch_. rewrite new_Promise_run.
  destruct (fn (contentPath E cache d) d w) as [[a|e|] w']; simpl; try reflexivity.
  unfold candidate_catch, settle, lift.
  destruct (get_code e) as [c|t]; [|reflexivity].
  destruct (strict_eq_str c "ENOENT"); reflexivity.
Qed.

Lemma withContentSri_unfold fuel cache integrity fn sched :
  withContentSri E (S fuel) cache integrity fn sched
  = match
      match parse E integrity with
      | Throw e => Some (Throw e)
      | Return sri =>
          match pickAlgorithm E sri with
          | Throw e => Some (Throw e)
          | Return algo =>
              match sri_get sri algo with
              | None => Some (Throw (TypeError "Cannot read property 'length' of undefined"))
              | Some digests =>
                  if (length digests <=? 1)%nat then
                    match digests with
                    | d :: _ => Some (Return (fn (contentPath E cache d) d))
                    | [] => Some (Throw (TypeError "Cannot read property 'algorithm' of undefined"))
                    end
                  else
                    match pickAlgorithm E sri with
                    | Throw e => Some (Throw e)
                    | Return algo' =>
                        match sri_get sri algo' with
                        | None => Some (Throw (TypeError "Cannot read property 'map' of undefined"))
                        | Some metas =>
                            match mapM (fun meta =>
                                    match withContentSri E fuel cache (SriHash meta) fn sched with
                                    | Some p => Some (catch_ p (candidate_catch E sri))
                                    | None => None
                                    end) metas with
                            | Some ps =>
                                Some (Return (then_ (promise_all sched ps)
                                                (fun results => settle (lift (pick_result results)))))
                            | None => None
                            end
                        end
                    end
              end
          end
      end
    with
    | Some r => Some (new_Promise r)
    | None => None
    end.
Proof. reflexivity. Qed.

Lemma withContentSriSync_unfold fuel cache integrity fn :
  withContentSriSync E (S fuel) cache integrity fn
  = match parse E integrity with
    | Throw e => Some (throw e)
    | Return sri =>
        match pickAlgorithm E sri with
        | Throw e => Some (throw e)
        | Return algo =>
            match sri_get sri algo with
            | None => Some (throw (TypeError "Cannot read property 'length' of undefined"))
            | Some digests =>
                if (length digests <=? 1)%nat then
                  match digests with
                  | d :: _ => Some (fn (contentPath E cache d) d)
                  | [] => Some (throw (TypeError "Cannot read property 'algorithm' of undefined"))
                  end
                else
                  match pickAlgorithm E sri with
                  | Throw e => Some (throw e)
                  | Return algo' =>
                      match sri_get sri algo' with
                      | None => Some (throw (TypeError "undefined is not iterable"))
                      | Some metas =>
                          match mapM (fun meta =>
                                  withContentSriSync E fuel cache (SriHash meta) fn) metas with
                          | Some attempts => Some (for_of_try attempts VNull)
                          | None => None
                          end
                      end
                  end
            end
        end
    end.
Proof. reflexivity. Qed.

(** One entry for the selected algorithm: the access function is called on
    that entry and nothing else is done. *)
Lemma withContentSri_single fuel cache integrity fn sched sri algo d :
  parse E integrity = Return sri ->
  pickAlgorithm E sri = Return algo ->
  sri_get sri algo = Some [d] ->
  withContentSri E (S fuel) cache integrity fn sched
  = Some (new_Promise (Return (fn (contentPath E cache d) d))).
Proof.
  intros Hp Hk Hg. rewrite withContentSri_unfold, Hp, Hk, Hg. reflexivity.
Qed.

Lemma withContentSriSync_single fuel cache integrity fn sri algo d :
  parse E integrity = Return sri ->
  pickAlgorithm E sri = Return algo ->
  sri_get sri algo = Some [d] ->
  withContentSriSync E (S fuel) cache integrity fn
  = Some (fn (contentPath E cache d) d).
Proof.
  intros Hp Hk Hg. rewrite withContentSriSync_unfold, Hp, Hk, Hg. reflexivity.
Qed.

Hypothesis law : entry_law E.

Lemma withContentSri_entry fuel cache fn sched h :
  withContentSri E (S fuel) cache (SriHash h) fn sched
  = Some (new_Promise (Return (fn (contentPath E cache h) h))).
Proof.
  destruct (law h) as (sri & algo & Hp & Hk & Hg).
  eapply withContentSri_single; eassumption.
Qed.

Lemma withContentSriSync_entry fuel cache fn h :
  withContentSriSync E (S fuel) cache (SriHash h) fn
  = Some (fn (contentPath E cache h) h).
Proof.
  destruct (law h) as (sri & algo & Hp & Hk & Hg).
  eapply withContentSriSync_single; eassumption.
Qed.

Lemma length_gt_1_leb {A} (l : list A) :
  (1 < length l)%nat -> (length l <=? 1)%nat = false.
Proof. intros H. apply Nat.leb_gt. exact H. Qed.

(** Several entries: every candidate is resolved, behind its [catch]; the
    decision is taken on what [Promise.all] collects. *)
Lemma withContentSri_multi fuel cache integrity fn sched sri algo ds :
  parse E integrity = Return sri ->
  pickAlgorithm E sri = Return algo ->
  sri_get sri algo = Some ds ->
  (1 < length ds)%nat ->
  withContentSri E (S (S fuel)) cache integrity fn sched
  = Some (new_Promise (Return
      (then_ (promise_all sched (guarded E cache fn sri <$> ds))
         (fun results => settle (lift (pick_result results)))))).
Proof.
  intros Hp Hk Hg Hlen.
  rewrite withContentSri_unfold, Hp, Hk, Hg, (length_gt_1_leb _ Hlen).
  rewrite (mapM_all_Some _ (guarded E cache fn sri)); [reflexivity|].
  intros h. rewrite withContentSri_entry. reflexivity.
Qed.

Lemma withContentSriSync_multi fuel cache integrity fn sri algo ds :
  parse E integrity = Return sri ->
  pickAlgorithm E sri = Return algo ->
  sri_get sri algo = Some ds ->
  (1 < length ds)%nat ->
  withContentSriSync E (S (S fuel)) cache integrity fn
  = Some (for_of_try ((fun d => fn (contentPath E cache d) d) <$> ds) VNull).
Proof.
  intros Hp Hk Hg Hlen.
  rewrite withContentSriSync_unfold, Hp, Hk, Hg, (length_gt_1_leb _ Hlen).
  rewrite (mapM_all_Some _ (fun d => fn (contentPath E cache d) d)); [reflexivity|].
  intros h. apply withContentSriSync_entry.
Qed.

(** With the law on entries, two levels of recursion are enough on every
    input: the resolvers always produce their promise or their completion. *)
Lemma withContentSri_total fuel cache integrity fn sched :
  is_Some (withContentSri E (S (S fuel)) cache integrity fn sched).
Proof.
  rewrite withContentSri_unfold.
  destruct (parse E integrity) as [sri|e]; [|eexists; reflexivity].
  destruct (pickAlgorithm E sri) as [algo|e] eqn:Hk; [|eexists; reflexivity].
  destruct (sri_get sri algo) as [ds|] eqn:Hg; [|eexists; reflexivity].
  destruct (length ds <=? 1)%nat.
  - destruct ds; eexists; reflexivity.
  - rewrite (mapM_all_Some _ (guarded E cache fn sri)); [eexists; reflexivity|].
    intros h. rewrite withContentSri_entry. reflexivity.
Qed.

Lemma withContentSriSync_total fuel cache integrity fn :
  is_Some (withContentSriSync E (S (S fuel)) cache integrity fn).
Proof.
  rewrite withContentSriSync_unfold.
  destruct (parse E integrity) as [sri|e]; [|eexists; reflexivity].
  destruct (pickAlgorithm E sri) as [algo|e] eqn:Hk; [|eexists; reflexivity].
  destruct (sri_get sri algo) as [ds|] eqn:Hg; [|eexists; reflexivity].
  destruct (length ds <=? 1)%nat.
  - destruct ds; eexists; reflexivity.
  - rewrite (mapM_all_Some _ (fun d => fn (contentPath E cache d) d));
      [eexists; reflexivity|].
    intros h. apply withContentSriSync_entry.
Qed.

End Resolver.

(** ** The fan-out: [Promise.all] over the guarded candidates *)

Section Fanout.

Context {World : Type} (E : Env World).

Lemma all_settle_length {A} (sched : list nat) (ps : list (Promise World A)) :
  forall slots rej (w : World) slots' rej' w',
    all_settle sched ps slots rej w = (slots', rej', w') ->
    length slots' = length slots.
Proof.
  induction sched as [|i sched IH]; intros slots rej w slots' rej' w' H; simpl in H.
  - injection H as <- _ _. reflexivity.
  - destruct (ps !! i) as [p|]; [|eauto].
    destruct (slots !! i) as [[o|]|]; [eauto| |eauto].
    destruct (p w) as [[a|e|] w1]; apply IH in H; rewrite H;
      try apply length_insert; reflexivity.
Qed.

(** A candidate that has settled keeps its outcome. *)
Lemma all_settle_keeps {A} (sched : list nat) (ps : list (Promise World A)) :
  forall slots rej (w : World) slots' rej' w' j o,
    all_settle sched ps slots rej w = (slots', rej', w') ->
    slots !! j = Some (Some o) ->
    slots' !! j = Some (Some o).
Proof.
  induction sched as [|i sched IH]; intros slots rej w slots' rej' w' j o H Hj;
    simpl in H.
  - injection H as <- _ _. exact Hj.
  - destruct (ps !! i) as [p|]; [|eauto].
    destruct (slots !! i) as [[o'|]|] eqn:Hi; [eauto| |eauto].
    assert (i <> j) as Hne by (intros ->; congruence).
    destruct (p w) as [[a|e|] w1]; eapply IH; try exact H;
      try (rewrite list_lookup_insert_ne by exact Hne); exact Hj.
Qed.

Variables (cache : string) (fn : string -> Hash -> Promise World value) (sri : Integrity).

(** [Promise.all] over the guarded candidates follows the candidates
    themselves: same worlds, outcomes seen through the [catch]; it is not
    rejected as long as no [catch] handler throws. *)
Lemma all_settle_guarded (ds : list Hash) (sched : list nat) :
  forall slots rej (w : World) slots' rej' w',
    all_settle sched (fmap (M:=list) (fun d => fn (contentPath E cache d) d) ds) slots rej w
      = (slots', rej', w') ->
    (forall j o t, slots' !! j = Some (Some o) -> guarded_outcome E sri o <> Rejected t) ->
    all_settle sched (fmap (M:=list) (guarded E cache fn sri) ds)
      (fmap (M:=list) (fmap (M:=option) (guarded_outcome E sri)) slots) None w
    = (fmap (M:=list) (fmap (M:=option) (guarded_outcome E sri)) slots', None, w').
Proof.
  induction sched as [|i sched IH]; intros slots rej w slots' rej' w' H Htame;
    simpl in H |- *.
  - injection H as <- _ <-. reflexivity.
  - rewrite !list_lookup_fmap in *.
    destruct (ds !! i) as [d|] eqn:Hd; simpl in *; [|eauto].
    destruct (slots !! i) as [[o|]|] eqn:Hs; simpl in *; [eauto| |eauto].
    rewrite guarded_run.
    destruct (fn (contentPath E cache d) d w) as [[a|e|] w1]; simpl.
    + change (Some (Fulfilled a)) with (guarded_outcome E sri <$> Some (Fulfilled a)).
      rewrite <- list_fmap_insert. eapply IH; eassumption.
    + assert (slots' !! i = Some (Some (Rejected e))) as Hi.
      { eapply all_settle_keeps; [exact H|].
        apply list_lookup_insert_eq. eapply lookup_lt_Some; exact Hs. }
      specialize (Htame i (Rejected e)) as Ht. simpl in Ht.
      destruct (get_code e) as [c|t] eqn:Hc.
      * match goal with
        | |- all_settle _ _ ?l _ _ = _ =>
            replace l
              with (fmap (M:=list) (fmap (M:=option) (guarded_outcome E sri))
                      (<[i:=Some (Rejected e)]> slots))
        end.
        2:{ rewrite list_fmap_insert. simpl. rewrite Hc. reflexivity. }
        eapply IH; eassumption.
      * exfalso. eapply Ht; [exact Hi | reflexivity].
    + eapply IH; eassumption.
Qed.

Lemma promise_all_guarded (ds : list Hash) (sched : list nat) (w w' : World)
    (slots : list (option (Settled value))) :
  candidate_outcomes E cache fn ds sched w = (slots, w') ->
  (forall j o t, slots !! j = Some (Some o) -> guarded_outcome E sri o <> Rejected t) ->
  promise_all sched (fmap (M:=list) (guarded E cache fn sri) ds) w
  = (match fulfilled_values (fmap (M:=list) (fmap (M:=option) (guarded_outcome E sri)) slots) with
     | Some vs => Fulfilled vs
     | None => Pending
     end, w').
Proof.
  unfold candidate_outcomes, promise_all. intros H Htame.
  destruct (all_settle sched _ (replicate (length ds) None) None w)
    as [[slots0 rej0] w0] eqn:Hrun.
  injection H as -> ->.
  rewrite length_fmap.
  change (replicate (length ds) (@None (Settled value)))
    with (replicate (length ds) (guarded_outcome E sri <$> (@None (Settled value)))).
  rewrite <- fmap_replicate.
  rewrite (all_settle_guarded ds sched _ _ _ _ _ _ Hrun Htame).
  destruct (fulfilled_values _); reflexivity.
Qed.

End Fanout.

(** ** The non-blocking resolver on several candidates *)

Section Decision.

Context {World : Type} (E : Env World).
Variables (cache : string) (fn : string -> Hash -> Promise World value) (sri : Integrity).

Lemma guarded_outcome_error (e : Error) :
  guarded_outcome E sri (Rejected (VError e)) = Fulfilled (VError (aggregated E sri e)).
Proof.
  unfold aggregated, has_code. simpl.
  destruct (code e) as [c|]; simpl; [|reflexivity].
  destruct (String.eqb c "ENOENT"); reflexivity.
Qed.

Lemma fulfilled_values_errors (errs : list Error) :
  fulfilled_values
    (fmap (M:=list) (fmap (M:=option) (guarded_outcome E sri))
       ((fun e => Some (Rejected (VError e))) <$> errs))
  = Some (VError <$> (aggregated E sri <$> errs)).
Proof.
  induction errs as [|e errs IH]; [reflexivity|].
  cbn [fmap list_fmap option_fmap option_map] in *.
  rewrite guarded_outcome_error. cbn [fulfilled_values]. rewrite IH. reflexivity.
Qed.

Lemma find_aggregated (errs : list Error) :
  List.find (has_code "ENOENT") (aggregated E sri <$> errs)
  = if existsb (has_code "ENOENT") errs then Some (no_match_error E sri) else None.
Proof.
  induction errs as [|e errs IH]; [reflexivity|].
  cbn [fmap list_fmap List.find existsb].
  destruct (has_code "ENOENT" e) eqn:He.
  - assert (aggregated E sri e = no_match_error E sri) as ->
      by (unfold aggregated; rewrite He; reflexivity).
    reflexivity.
  - assert (aggregated E sri e = e) as ->
      by (unfold aggregated; rewrite He; reflexivity).
    rewrite He. exact IH.
Qed.

Lemma aggregated_none (errs : list Error) :
  existsb (has_code "ENOENT") errs = false -> aggregated E sri <$> errs = errs.
Proof.
  induction errs as [|e errs IH]; [reflexivity|].
  cbn [existsb fmap list_fmap]. intros H. apply orb_false_iff in H as [He Hrest].
  unfold aggregated at 1. rewrite He. f_equal. apply IH, Hrest.
Qed.

(** Some candidate has not settled: there is no decision yet, whatever the
    others did. *)
Lemma fulfilled_values_unsettled (slots : list (option (Settled value))) (j : nat) :
  slots !! j = Some None ->
  fulfilled_values (fmap (M:=list) (fmap (M:=option) (guarded_outcome E sri)) slots) = None.
Proof.
  revert j. induction slots as [|s slots IH]; intros j Hj; [discriminate|].
  destruct j as [|j]; simpl in Hj.
  - injection Hj as ->. reflexivity.
  - cbn [fmap list_fmap]. destruct s as [[a|e|]|]; simpl; try reflexivity.
    + rewrite (IH j Hj). reflexivity.
    + destruct (get_code e) as [c|t]; [|reflexivity].
      rewrite (IH j Hj). reflexivity.
Qed.

(** Errors first, then a success, then outcomes that the [catch] turns into
    values: the collected results have the same shape. *)
Lemma fulfilled_values_success (pre : list Error) (v : value) (post : list (Settled value)) :
  Forall (fun o => exists x, guarded_outcome E sri o = Fulfilled x) post ->
  exists post',
    fulfilled_values
      (fmap (M:=list) (fmap (M:=option) (guarded_outcome E sri))
         (Some <$> (((fun e => Rejected (VError e)) <$> pre) ++ Fulfilled v :: post)%list))
    = Some ((VError <$> (aggregated E sri <$> pre)) ++ v :: post')%list.
Proof.
  intros Hpost.
  assert (exists post',
    fulfilled_values
      (fmap (M:=list) (fmap (M:=option) (guarded_outcome E sri)) (Some <$> post))
    = Some post') as [post' Hpost'].
  { induction Hpost as [|o post [x Hx] _ [l IH]]; [exists []; reflexivity|].
    exists (x :: l). cbn [fmap list_fmap option_fmap option_map] in *.
    rewrite Hx. cbn [fulfilled_values]. rewrite IH. reflexivity. }
  exists post'. induction pre as [|e pre IH].
  - cbn [fmap list_fmap option_fmap option_map app guarded_outcome fulfilled_values] in *.
    rewrite Hpost'. reflexivity.
  - cbn [fmap list_fmap option_fmap option_map app] in *.
    rewrite guarded_outcome_error. cbn [fulfilled_values]. rewrite IH. reflexivity.
Qed.

End Decision.

Section NonBlocking.

Context {World : Type} (E : Env World).
Hypothesis law : entry_law E.

Variables (fuel : nat) (cache : string) (integrity : sri_input)
  (fn : string -> Hash -> Promise World value) (sched : list nat)
  (sri : Integrity) (algo : string) (ds : list Hash).

Hypothesis parsed : parse E integrity = Return sri.
Hypothesis picked : pickAlgorithm E sri = Return algo.
Hypothesis listed : sri_get sri algo = Some ds.
Hypothesis several : (1 < length ds)%nat.

(** The promise of the resolver, run from [w]: the candidates settle as
    [candidate_outcomes] says, and the decision is [pick_result] on the values
    their [catch] left, once all of them are there. *)
Lemma withContentSri_multi_run (w w' : World) (slots : list (option (Settled value))) :
  candidate_outcomes E cache fn ds sched w = (slots, w') ->
  (forall j o t, slots !! j = Some (Some o) -> guarded_outcome E sri o <> Rejected t) ->
  exists p,
    withContentSri E (S (S fuel)) cache integrity fn sched = Some p /\
    p w = (match fulfilled_values
                   (fmap (M:=list) (fmap (M:=option) (guarded_outcome E sri)) slots) with
           | Some results =>
               match pick_result results with
               | Return v => Fulfilled v
               | Throw e => Rejected e
               end
           | None => Pending
           end, w').
Proof.
  intros Hout Htame. eexists. split.
  - eapply withContentSri_multi; eassumption.
  - rewrite new_Promise_run. unfold then_.
    rewrite (promise_all_guarded E cache fn sri ds sched w w' slots Hout Htame).
    destruct (fulfilled_values _) as [results|]; [|reflexivity].
    unfold settle, lift. destruct (pick_result results); reflexivity.
Qed.

Lemma candidate_outcomes_length (w w' : World) (slots : list (option (Settled value))) :
  candidate_outcomes E cache fn ds sched w = (slots, w') -> length slots = length ds.
Proof.
  unfold candidate_outcomes.
  destruct (all_settle sched _ (replicate (length ds) None) None w)
    as [[slots0 rej0] w0] eqn:Hrun.
  intros H. injection H as <- _.
  rewrite (all_settle_length _ _ _ _ _ _ _ _ Hrun). apply length_replicate.
Qed.

(** The earliest success wins when it is a truthy value that is not an
    [Error] object, whatever the order in which the candidates settled. *)
Lemma withContentSri_first_truthy_success (w w' : World)
    (pre : list Error) (v : value) (post : list (Settled value)) :
  candidate_outcomes E cache fn ds sched w
    = (Some <$> (((fun e => Rejected (VError e)) <$> pre) ++ Fulfilled v :: post)%list, w') ->
  Forall (fun o => exists x, guarded_outcome E sri o = Fulfilled x) post ->
  instanceof_Error v = false ->
  truthy v = true ->
  exists p,
    withContentSri E (S (S fuel)) cache integrity fn sched = Some p /\
    p w = (Fulfilled v, w').
Proof.
  intros Hout Hpost Hv Ht.
  destruct (withContentSri_multi_run w w' _ Hout) as (p & Hp & Hrun).
  - intros j o t Hj Ho. rewrite list_lookup_fmap in Hj.
    destruct (_ !! j) as [o'|] eqn:Hj'; [|discriminate].
    injection Hj as ->.
    apply lookup_app_Some in Hj' as [Hj'|[_ Hj']].
    + rewrite list_lookup_fmap in Hj'.
      destruct (pre !! j); [|discriminate]. injection Hj' as <-.
      rewrite guarded_outcome_error in Ho. discriminate.
    + destruct (j - length _)%nat as [|k]; simpl in Hj'.
      * injection Hj' as <-. discriminate.
      * rewrite Forall_lookup in Hpost. destruct (Hpost k o Hj') as [x Hx].
        congruence.
  - exists p. split; [exact Hp|]. rewrite Hrun.
    destruct (fulfilled_values_success E sri pre v post Hpost) as [post' ->].
    rewrite pick_result_first_success by assumption. reflexivity.
Qed.

(** No decision before every candidate has settled: with a candidate still
    outstanding the promise is pending, even if another one has succeeded. *)
Lemma withContentSri_waits_for_all (w w' : World)
    (slots : list (option (Settled value))) (j : nat) :
  candidate_outcomes E cache fn ds sched w = (slots, w') ->
  (forall i o t, slots !! i = Some (Some o) -> guarded_outcome E sri o <> Rejected t) ->
  slots !! j = Some None ->
  exists p,
    withContentSri E (S (S fuel)) cache integrity fn sched = Some p /\
    p w = (Pending, w').
Proof.
  intros Hout Htame Hj.
  destruct (withContentSri_multi_run w w' _ Hout Htame) as (p & Hp & Hrun).
  exists p. split; [exact Hp|].
  rewrite Hrun, (fulfilled_values_unsettled E sri slots j Hj). reflexivity.
Qed.

(** A first candidate that succeeds with [undefined], as the access function
    of [copy] does: the promise is rejected with a [TypeError], whatever the
    other candidates did. *)
Lemma withContentSri_undefined_success_lost (w w' : World) (post : list (Settled value)) :
  candidate_outcomes E cache fn ds sched w = (Some <$> (Fulfilled VUndefined :: post), w') ->
  Forall (fun o => exists x, guarded_outcome E sri o = Fulfilled x) post ->
  exists p,
    withContentSri E (S (S fuel)) cache integrity fn sched = Some p /\
    p w = (Rejected (TypeError "Cannot read property 'code' of undefined"), w').
Proof.
  intros Hout Hpost.
  destruct (withContentSri_multi_run w w' _ Hout) as (p & Hp & Hrun).
  - intros j o t Hj Ho. destruct j as [|j]; simpl in Hj.
    + injection Hj as <-. discriminate.
    + rewrite list_lookup_fmap in Hj.
      destruct (post !! j) as [o'|] eqn:Hj'; [|discriminate]. injection Hj as ->.
      rewrite Forall_lookup in Hpost. destruct (Hpost j o Hj') as [x Hx]. congruence.
  - exists p. split; [exact Hp|]. rewrite Hrun.
    destruct (fulfilled_values_success E sri [] VUndefined post Hpost) as [post' Hv].
    cbn [fmap list_fmap app] in Hv. cbn [fmap list_fmap]. rewrite Hv. reflexivity.
Qed.

(** C2. Non-blocking resolver, several candidates, every access function
    failed (with errors [errs], in candidate order, whatever the order of
    settlement): if one of the failures has code [ENOENT] the promise is
    rejected with one aggregate [ENOENT] error whose message is
    "No matching content found for " followed by the descriptor; otherwise it
    is rejected with the first failure in candidate order. *)
Theorem withContentSri_all_failed (w w' : World) (errs : list Error) :
  candidate_outcomes E cache fn ds sched w
    = ((fun e => Some (Rejected (VError e))) <$> errs, w') ->
  exists p,
    withContentSri E (S (S fuel)) cache integrity fn sched = Some p /\
    (existsb (has_code "ENOENT") errs = true ->
       p w = (Rejected (VError (no_match_error E sri)), w')) /\
    (existsb (has_code "ENOENT") errs = false ->
       exists e rest, errs = e :: rest /\ p w = (Rejected (VError e), w')) /\
    message (no_match_error E sri)
      = ("No matching content found for " ++ toString E sri)%string /\
    code (no_match_error E sri) = Some "ENOENT".
Proof.
  intros Hout.
  destruct (withContentSri_multi_run w w' _ Hout) as (p & Hp & Hrun).
  - intros j o t Hj Ho. rewrite list_lookup_fmap in Hj.
    destruct (errs !! j); [|discriminate]. injection Hj as <-.
    rewrite guarded_outcome_error in Ho. discriminate.
  - exists p. split; [exact Hp|].
    rewrite fulfilled_values_errors, pick_result_errors, find_aggregated in Hrun.
    repeat split.
    + intros Hex. rewrite Hex in Hrun. exact Hrun.
    + intros Hex. rewrite Hex, (aggregated_none E sri errs Hex) in Hrun.
      apply candidate_outcomes_length in Hout. rewrite length_fmap in Hout.
      destruct errs as [|e rest]; [simpl in Hout; lia|].
      exists e, rest. split; [reflexivity | exact Hrun].
Qed.

End NonBlocking.

(** ** The blocking resolver on several candidates *)

Section Blocking.

Context {World : Type} (E : Env World).
Hypothesis law : entry_law E.

Variables (fuel : nat) (cache : string) (integrity : sri_input)
  (fn : string -> Hash -> Sync World value)
  (sri : Integrity) (algo : string) (ds : list Hash).

Hypothesis parsed : parse E integrity = Return sri.
Hypothesis picked : pickAlgorithm E sri = Return algo.
Hypothesis listed : sri_get sri algo = Some ds.
Hypothesis several : (1 < length ds)%nat.

Lemma last_nonempty_default {A} (a : A) (l : list A) (d d' : A) :
  List.last (a :: l) d = List.last (a :: l) d'.
Proof.
  revert a. induction l as [|b l IH]; intros a; [reflexivity|].
  change (List.last (b :: l) d = List.last (b :: l) d'). apply IH.
Qed.

(** The loop goes past the candidates that throw, remembering the last
    value thrown. *)
Lemma for_of_try_skips (pre : list Hash) (w w1 : World) (es : list value) :
  all_throw E cache fn pre w es w1 ->
  forall (rest : list (Sync World value)) (lastErr : value),
    for_of_try (((fun d => fn (contentPath E cache d) d) <$> pre) ++ rest) lastErr w
    = for_of_try rest (List.last es lastErr) w1.
Proof.
  induction 1 as [w|d pre w wa wb e es Hd Hpre IH]; intros rest lastErr.
  - reflexivity.
  - cbn [fmap list_fmap app for_of_try]. rewrite Hd, IH.
    destruct es as [|e' es]; [reflexivity|].
    rewrite (last_nonempty_default e' es e lastErr). reflexivity.
Qed.

(** C4. Blocking resolver, several candidates.  The access function is run
    on the candidates in the order of the descriptor, each from the world the
    previous one left; the result of the first candidate that does not throw
    is returned, and no later candidate is tried; when every candidate
    throws, the error thrown by the last one is thrown. *)
Theorem withContentSriSync_in_order :
  exists run,
    withContentSriSync E (S (S fuel)) cache integrity fn = Some run /\
    (forall pre d post w es w1 v w2,
        ds = (pre ++ d :: post)%list ->
        all_throw E cache fn pre w es w1 ->
        fn (contentPath E cache d) d w1 = (Return v, w2) ->
        run w = (Return v, w2)) /\
    (forall w es w1 e,
        all_throw E cache fn ds w es w1 ->
        List.last es VNull = VError e ->
        run w = (Throw (VError e), w1)).
Proof.
  eexists. split; [eapply withContentSriSync_multi; eassumption|]. split.
  - intros pre d post w es w1 v w2 -> Hpre Hd.
    rewrite fmap_app, (for_of_try_skips pre w w1 es Hpre).
    cbn [fmap list_fmap for_of_try]. rewrite Hd. reflexivity.
  - intros w es w1 e Hall Hlast.
    rewrite <- (app_nil_r (_ <$> ds)), (for_of_try_skips ds w w1 es Hall).
    cbn [for_of_try]. rewrite Hlast. reflexivity.
Qed.

End Blocking.

(** ** Buffered reads *)

Section BufferedRead.

Context {World : Type} (E : Env World).

Variables (opts : ReadOpts) (cpath : string) (sri : Hash).

(** The three cases of the validation. *)
Lemma validation_cases (size : value) (data : list Byte.byte) (ok : bool) (failure : value) :
  (exists n, size = VNumber n /\ n <> Z.of_nat (length data) /\
             validation size data ok failure = Throw (sizeError n (Z.of_nat (length data))))
  \/ (size_differs size data = false /\ ok = false /\
      validation size data ok failure = Throw failure)
  \/ (size_differs size data = false /\ ok = true /\
      validation size data ok failure = Return (VBuffer data)).
Proof.
  unfold validation, size_differs.
  destruct size as [| |b|n|s|d|h|st|props|e]; simpl;
    try (destruct ok; [right; right | right; left]; repeat split; reflexivity).
  destruct (n =? Z.of_nat (length data)) eqn:Hn; simpl.
  - destruct ok; [right; right | right; left]; repeat split; reflexivity.
  - left. exists n. apply Z.eqb_neq in Hn. repeat split; assumption.
Qed.

(** The callback of [read], once the file is read, is the validation; the
    digest check is run, from the world the read left, only when the size
    check has passed. *)
Lemma read_fn_validation (data : list Byte.byte) (w w1 : World) :
  readFile E cpath w = (Fulfilled data, w1) ->
  read_fn E opts cpath sri w
  = (settled_of (validation (opts_size opts) data (fst (checkData E data sri w1))
                   (integrityError (hash_toString E) sri cpath)),
     if size_differs (opts_size opts) data then w1 else snd (checkData E data sri w1)).
Proof.
  intros Hread. unfold read_fn, then_, settle, validation, size_differs.
  rewrite Hread.
  destruct (opts_size opts) as [| |b|n|s|d|h|st|props|e]; simpl;
    try (destruct (checkData E data sri w1) as [[|] w2]; reflexivity).
  destruct (n =? Z.of_nat (length data)); simpl; [|reflexivity].
  destruct (checkData E data sri w1) as [[|] w2]; reflexivity.
Qed.

Lemma readSync_fn_validation (data : list Byte.byte) (w w1 : World) :
  readFileSync E cpath w = (Return data, w1) ->
  readSync_fn E opts cpath sri w
  = (validation (opts_size opts) data (fst (checkData E data sri w1))
       (integrityError (hash_toString E) sri cpath),
     if size_differs (opts_size opts) data then w1 else snd (checkData E data sri w1)).
Proof.
  intros Hread. unfold readSync_fn, bind, validation, size_differs.
  rewrite Hread.
  destruct (opts_size opts) as [| |b|n|s|d|h|st|props|e]; simpl;
    try (destruct (checkData E data sri w1) as [[|] w2]; reflexivity).
  destruct (n =? Z.of_nat (length data)); simpl; [|reflexivity].
  destruct (checkData E data sri w1) as [[|] w2]; reflexivity.
Qed.

(** The two callbacks validate alike: same outcome, same world, and the
    outcome is the validation of the description. *)
Lemma read_callbacks_same_validation (data : list Byte.byte) (w w1 : World) :
  readFile E cpath w = (Fulfilled data, w1) ->
  readFileSync E cpath w = (Return data, w1) ->
  exists (r : Result value) (w2 : World),
    read_fn E opts cpath sri w = (settled_of r, w2) /\
    readSync_fn E opts cpath sri w = (r, w2) /\
    r = validation (opts_size opts) data (fst (checkData E data sri w1))
          (integrityError (hash_toString E) sri cpath) /\
    ((exists e, r = Throw (VError e) /\ code e = Some "EBADSIZE")
       <-> size_differs (opts_size opts) data = true) /\
    ((exists e, r = Throw (VError e) /\ code e = Some "EINTEGRITY")
       <-> (size_differs (opts_size opts) data = false /\
            fst (checkData E data sri w1) = false)) /\
    (r = Return (VBuffer data)
       <-> (size_differs (opts_size opts) data = false /\
            fst (checkData E data sri w1) = true)).
Proof.
  intros Ha Hs. eexists _, _.
  split; [apply read_fn_validation; exact Ha|].
  split; [apply readSync_fn_validation; exact Hs|].
  split; [reflexivity|].
  destruct (validation_cases (opts_size opts) data (fst (checkData E data sri w1))
              (integrityError (hash_toString E) sri cpath))
    as [(n & Hsz & Hne & ->)|[(Hsz & Hok & ->)|(Hsz & Hok & ->)]].
  - assert (size_differs (opts_size opts) data = true) as Hd.
    { unfold size_differs. rewrite Hsz. apply negb_true_iff, Z.eqb_neq, Hne. }
    rewrite Hd. split; [|split]; split.
    + reflexivity.
    + intros _. eexists. split; reflexivity.
    + intros (e & He & Hc). injection He as <-. discriminate.
    + intros [? _]; discriminate.
    + discriminate.
    + intros [? _]; discriminate.
  - rewrite Hsz, Hok. split; [|split]; split.
    + intros (e & He & Hc). injection He as <-. discriminate.
    + discriminate.
    + intros _. split; reflexivity.
    + intros _. eexists. split; reflexivity.
    + discriminate.
    + intros [_ ?]; discriminate.
  - rewrite Hsz, Hok. split; [|split]; split.
    + intros (e & He & Hc). discriminate.
    + discriminate.
    + intros (e & He & Hc). discriminate.
    + intros [_ ?]; discriminate.
    + intros _. split; reflexivity.
    + reflexivity.
Qed.

(** C8, as amended.  [read] and [readSync] validate a candidate alike.  For
    the same content path, digest entry and bytes read, the two access
    functions complete with the same outcome [r], in the same world, and [r]
    is the validation of the description: a failure with code [EBADSIZE]
    exactly when the size is of number type and differs from the length of
    the bytes; a failure with code [EINTEGRITY] exactly when the size check
    passes and the digest check fails; the bytes exactly when both checks
    pass.  When the selected algorithm has that one entry, [r] is the outcome
    of [read] and of [readSync] themselves. *)
Theorem read_readSync_same_validation (data : list Byte.byte) (w w1 : World) :
  readFile E cpath w = (Fulfilled data, w1) ->
  readFileSync E cpath w = (Return data, w1) ->
  exists (r : Result value) (w2 : World),
    read_fn E opts cpath sri w = (settled_of r, w2) /\
    readSync_fn E opts cpath sri w = (r, w2) /\
    r = validation (opts_size opts) data (fst (checkData E data sri w1))
          (integrityError (hash_toString E) sri cpath) /\
    ((exists e, r = Throw (VError e) /\ code e = Some "EBADSIZE")
       <-> size_differs (opts_size opts) data = true) /\
    ((exists e, r = Throw (VError e) /\ code e = Some "EINTEGRITY")
       <-> (size_differs (opts_size opts) data = false /\
            fst (checkData E data sri w1) = false)) /\
    (r = Return (VBuffer data)
       <-> (size_differs (opts_size opts) data = false /\
            fst (checkData E data sri w1) = true)) /\
    (forall fuel cache integrity sched descriptor algo,
        parse E integrity = Return descriptor ->
        pickAlgorithm E descriptor = Return algo ->
        sri_get descriptor algo = Some [sri] ->
        cpath = contentPath E cache sri ->
        exists p run,
          read E (S fuel) cache integrity opts sched = Some p /\
          readSync E (S fuel) cache integrity opts = Some run /\
          p w = (settled_of r, w2) /\
          run w = (r, w2)).
Proof.
  intros Ha Hs.
  destruct (read_callbacks_same_validation data w w1 Ha Hs)
    as (r & w2 & Hfn & HfnS & Hr & Hsize & Hint & Hbytes).
  exists r, w2.
  split; [exact Hfn|]. split; [exact HfnS|]. split; [exact Hr|].
  split; [exact Hsize|]. split; [exact Hint|]. split; [exact Hbytes|].
  intros fuel cache integrity sched descriptor algo Hp Hk Hg Hpath.
  eexists _, _.
  split; [unfold read; eapply withContentSri_single; eassumption|].
  split; [unfold readSync; eapply withContentSriSync_single; eassumption|].
  split.
  - rewrite new_Promise_run, <- Hpath. exact Hfn.
  - rewrite <- Hpath. exact HfnS.
Qed.

End BufferedRead.

Section BufferedReadFailures.

Context {World : Type} (E : Env World).

Variables (opts : ReadOpts) (data : list Byte.byte).

(** With one entry for the selected algorithm, the promise of [read] is the
    callback run on that entry. *)
Lemma read_single fuel cache integrity sched sri algo d :
  parse E integrity = Return sri ->
  pickAlgorithm E sri = Return algo ->
  sri_get sri algo = Some [d] ->
  exists p,
    read E (S fuel) cache integrity opts sched = Some p /\
    forall w, p w = read_fn E opts (contentPath E cache d) d w.
Proof.
  intros Hp Hk Hg. eexists. split.
  - unfold read. eapply withContentSri_single; eassumption.
  - intros w. apply new_Promise_run.
Qed.

Lemma readSync_single fuel cache integrity sri algo d :
  parse E integrity = Return sri ->
  pickAlgorithm E sri = Return algo ->
  sri_get sri algo = Some [d] ->
  readSync E (S fuel) cache integrity opts
  = Some (readSync_fn E opts (contentPath E cache d) d).
Proof.
  intros Hp Hk Hg. unfold readSync. eapply withContentSriSync_single; eassumption.
Qed.

(** C5, as amended.  A size of number type that differs from the number of
    bytes read from a candidate's file makes the access function of [read]
    and of [readSync] fail for that candidate with the [EBADSIZE] error,
    which carries the expected and the found length; the world is the one
    the file read left, so the digest check has not been run.  When the
    selected algorithm has one entry, this is the failure of the whole
    operation. *)
Theorem read_size_mismatch (n : Z) :
  opts_size opts = VNumber n ->
  n <> Z.of_nat (length data) ->
  (exists e, sizeError n (Z.of_nat (length data)) = VError e /\
             code e = Some "EBADSIZE" /\
             expected e = Some n /\
             found e = Some (Z.of_nat (length data))) /\
  (forall cpath sri w w1,
      readFile E cpath w = (Fulfilled data, w1) ->
      read_fn E opts cpath sri w
      = (Rejected (sizeError n (Z.of_nat (length data))), w1)) /\
  (forall cpath sri w w1,
      readFileSync E cpath w = (Return data, w1) ->
      readSync_fn E opts cpath sri w
      = (Throw (sizeError n (Z.of_nat (length data))), w1)) /\
  (forall fuel cache integrity sched sri algo d w w1,
      parse E integrity = Return sri ->
      pickAlgorithm E sri = Return algo ->
      sri_get sri algo = Some [d] ->
      (exists p,
          read E (S fuel) cache integrity opts sched = Some p /\
          (readFile E (contentPath E cache d) w = (Fulfilled data, w1) ->
           p w = (Rejected (sizeError n (Z.of_nat (length data))), w1))) /\
      (exists run,
          readSync E (S fuel) cache integrity opts = Some run /\
          (readFileSync E (contentPath E cache d) w = (Return data, w1) ->
           run w = (Throw (sizeError n (Z.of_nat (length data))), w1)))).
Proof.
  intros Hsize Hne.
  assert (size_differs (opts_size opts) data = true) as Hd.
  { unfold size_differs. rewrite Hsize. apply negb_true_iff, Z.eqb_neq, Hne. }
  assert (forall ok failure,
             validation (opts_size opts) data ok failure
             = Throw (sizeError n (Z.of_nat (length data)))) as Hval.
  { intros ok failure. unfold validation. rewrite Hsize. simpl.
    destruct (n =? Z.of_nat (length data)) eqn:Hn; [|reflexivity].
    apply Z.eqb_eq in Hn. contradiction. }
  assert (forall cpath sri w w1,
             readFile E cpath w = (Fulfilled data, w1) ->
             read_fn E opts cpath sri w
             = (Rejected (sizeError n (Z.of_nat (length data))), w1)) as Hasync.
  { intros cpath sri w w1 Hread.
    rewrite (read_fn_validation E opts cpath sri data w w1 Hread), Hd, Hval.
    reflexivity. }
  assert (forall cpath sri w w1,
             readFileSync E cpath w = (Return data, w1) ->
             readSync_fn E opts cpath sri w
             = (Throw (sizeError n (Z.of_nat (length data))), w1)) as Hsync.
  { intros cpath sri w w1 Hread.
    rewrite (readSync_fn_validation E opts cpath sri data w w1 Hread), Hd, Hval.
    reflexivity. }
  split; [eexists; repeat split; reflexivity|].
  split; [exact Hasync|]. split; [exact Hsync|].
  intros fuel cache integrity sched sri algo d w w1 Hp Hk Hg. split.
  - destruct (read_single fuel cache integrity sched sri algo d Hp Hk Hg) as (p & Hsome & Hrun).
    exists p. split; [exact Hsome|]. intros Hread. rewrite Hrun. apply Hasync, Hread.
  - eexists. split; [eapply readSync_single; eassumption|]. apply Hsync.
Qed.

(** C6, as amended.  Bytes read from a candidate's file that pass the size
    check and fail the digest check make the access function of [read] and of
    [readSync] fail for that candidate with the [EINTEGRITY] error, which
    carries the digest entry and the content path of the candidate.  When the
    selected algorithm has one entry, this is the failure of the whole
    operation. *)
Theorem read_integrity_mismatch :
  size_differs (opts_size opts) data = false ->
  (forall sri cpath,
      exists e, integrityError (hash_toString E) sri cpath = VError e /\
                code e = Some "EINTEGRITY" /\
                err_sri e = Some sri /\
                err_path e = Some cpath) /\
  (forall cpath sri w w1 w2,
      readFile E cpath w = (Fulfilled data, w1) ->
      checkData E data sri w1 = (false, w2) ->
      read_fn E opts cpath sri w
      = (Rejected (integrityError (hash_toString E) sri cpath), w2)) /\
  (forall cpath sri w w1 w2,
      readFileSync E cpath w = (Return data, w1) ->
      checkData E data sri w1 = (false, w2) ->
      readSync_fn E opts cpath sri w
      = (Throw (integrityError (hash_toString E) sri cpath), w2)) /\
  (forall fuel cache integrity sched sri algo d w w1 w2,
      parse E integrity = Return sri ->
      pickAlgorithm E sri = Return algo ->
      sri_get sri algo = Some [d] ->
      checkData E data d w1 = (false, w2) ->
      (exists p,
          read E (S fuel) cache integrity opts sched = Some p /\
          (readFile E (contentPath E cache d) w = (Fulfilled data, w1) ->
           p w = (Rejected (integrityError (hash_toString E) d (contentPath E cache d)), w2))) /\
      (exists run,
          readSync E (S fuel) cache integrity opts = Some run /\
          (readFileSync E (contentPath E cache d) w = (Return data, w1) ->
           run w = (Throw (integrityError (hash_toString E) d (contentPath E cache d)), w2)))).
Proof.
  intros Hd.
  assert (forall failure, validation (opts_size opts) data false failure = Throw failure)
    as Hval.
  { intros failure.
    destruct (validation_cases (opts_size opts) data false failure)
      as [(n & Hsz & Hne & _)|[(_ & _ & H)|(_ & Hok & _)]].
    - unfold size_differs in Hd. rewrite Hsz in Hd.
      apply negb_false_iff, Z.eqb_eq in Hd. contradiction.
    - exact H.
    - discriminate. }
  assert (forall cpath sri w w1 w2,
             readFile E cpath w = (Fulfilled data, w1) ->
             checkData E data sri w1 = (false, w2) ->
             read_fn E opts cpath sri w
             = (Rejected (integrityError (hash_toString E) sri cpath), w2)) as Hasync.
  { intros cpath sri w w1 w2 Hread Hcheck.
    rewrite (read_fn_validation E opts cpath sri data w w1 Hread), Hd, Hcheck, Hval.
    reflexivity. }
  assert (forall cpath sri w w1 w2,
             readFileSync E cpath w = (Return data, w1) ->
             checkData E data sri w1 = (false, w2) ->
             readSync_fn E opts cpath sri w
             = (Throw (integrityError (hash_toString E) sri cpath), w2)) as Hsync.
  { intros cpath sri w w1 w2 Hread Hcheck.
    rewrite (readSync_fn_validation E opts cpath sri data w w1 Hread), Hd, Hcheck, Hval.
    reflexivity. }
  split; [intros sri cpath; eexists; repeat split; reflexivity|].
  split; [exact Hasync|]. split; [exact Hsync|].
  intros fuel cache integrity sched sri algo d w w1 w2 Hp Hk Hg Hcheck. split.
  - destruct (read_single fuel cache integrity sched sri algo d Hp Hk Hg) as (p & Hsome & Hrun).
    exists p. split; [exact Hsome|]. intros Hread. rewrite Hrun.
    eapply Hasync; eassumption.
  - eexists. split; [eapply readSync_single; eassumption|].
    intros Hread. eapply Hsync; eassumption.
Qed.

(** C10. A size that is not of number type is as good as no size: [read] and
    [readSync] are the operations they are without the option, and the
    outcome for a candidate whose file is read is decided by the digest check
    alone, so it is the bytes or the [EINTEGRITY] error, never [EBADSIZE]. *)
Theorem read_size_not_number :
  typeof_number (opts_size opts) = false ->
  (forall fuel cache integrity sched,
      read E fuel cache integrity opts sched
      = read E fuel cache integrity (mkReadOpts VUndefined) sched) /\
  (forall fuel cache integrity,
      readSync E fuel cache integrity opts
      = readSync E fuel cache integrity (mkReadOpts VUndefined)) /\
  (forall cpath sri w w1,
      readFile E cpath w = (Fulfilled data, w1) ->
      read_fn E opts cpath sri w
      = match checkData E data sri w1 with
        | (true, w2) => (Fulfilled (VBuffer data), w2)
        | (false, w2) => (Rejected (integrityError (hash_toString E) sri cpath), w2)
        end) /\
  (forall cpath sri w w1,
      readFileSync E cpath w = (Return data, w1) ->
      readSync_fn E opts cpath sri w
      = match checkData E data sri w1 with
        | (true, w2) => (Return (VBuffer data), w2)
        | (false, w2) => (Throw (integrityError (hash_toString E) sri cpath), w2)
        end).
Proof.
  intros Hty.
  assert (read_fn E opts = read_fn E (mkReadOpts VUndefined)) as Hfn.
  { destruct opts as [[| |b|n|s|d|h|st|props|e]]; try discriminate; reflexivity. }
  assert (readSync_fn E opts = readSync_fn E (mkReadOpts VUndefined)) as HfnS.
  { destruct opts as [[| |b|n|s|d|h|st|props|e]]; try discriminate; reflexivity. }
  split; [intros; unfold read; rewrite Hfn; reflexivity|].
  split; [intros; unfold readSync; rewrite HfnS; reflexivity|].
  split.
  - intros cpath sri w w1 Hread. rewrite Hfn.
    unfold read_fn, then_, settle. rewrite Hread. simpl.
    destruct (checkData E data sri w1) as [[|] w2]; reflexivity.
  - intros cpath sri w w1 Hread. rewrite HfnS.
    unfold readSync_fn, bind. rewrite Hread. simpl.
    destruct (checkData E data sri w1) as [[|] w2]; reflexivity.
Qed.

End BufferedReadFailures.

(** ** Copy *)

Section Copy.

Context {World : Type} (E : Env World).

Variables (plat : string) (hts : Hash -> string)
  (cd : list Byte.byte -> Hash -> World -> bool * World)
  (rf : string -> Promise World (list Byte.byte))
  (rfs : string -> Sync World (list Byte.byte))
  (ls : string -> Promise World Stats) (lss : string -> Sync World Stats)
  (np : World -> stream * World) (em : stream -> value -> Sync World value)
  (pv : value -> value -> value -> stream -> Promise World value).







End Copy.

(** ** Streaming read *)

Section Streaming.

Context {World : Type} (E : Env World).
Hypothesis law : entry_law E.

Variables (fuel : nat) (cache : string) (integrity : sri_input)
  (opts : ReadOpts) (sched : list nat).


End Streaming.

(** ** Existence check *)

Section Existence.

Context {World : Type} (E : Env World).

(** The handler on an [Error] object: [false] for [ENOENT]; for [EPERM],
    [false] on Windows and the error again elsewhere; and for any other code
    it falls off its end, which yields [undefined]. *)
Lemma hasContent_handler_cases (e : Error) (w : World) :
  hasContent_handler E (VError e) w
  = (if has_code "ENOENT" e then Return (VBool false)
     else if has_code "EPERM" e then
            if String.eqb (platform E) "win32" then Return (VBool false)
            else Throw (VError e)
          else Return VUndefined, w).
Proof.
  unfold hasContent_handler, bind, lift, has_code. simpl.
  destruct (code e) as [c|]; simpl; [|reflexivity].
  destruct (String.eqb c "ENOENT"); [reflexivity|].
  destruct (String.eqb c "EPERM"); [|reflexivity].
  destruct (String.eqb (platform E) "win32"); reflexivity.
Qed.

(** A rejected resolution, seen through [hasContent]. *)
Lemma hasContent_on_failure fuel cache integrity sched p (e : Error) (w w' : World) :
  falsy_input integrity = false ->
  withContentSri E fuel cache integrity (hasContent_fn E) sched = Some p ->
  p w = (Rejected (VError e), w') ->
  exists q,
    hasContent E fuel cache integrity sched = Some q /\
    q w = (settled_of (fst (hasContent_handler E (VError e) w')), w').
Proof.
  intros Hin Hp Hrun. unfold hasContent. rewrite Hin, Hp.
  eexists. split; [reflexivity|].
  unfold catch_, settle. rewrite Hrun, hasContent_handler_cases.
  destruct (has_code "ENOENT" e); [reflexivity|].
  destruct (has_code "EPERM" e); [|reflexivity].
  destruct (String.eqb (platform E) "win32"); reflexivity.
Qed.

(** C3, as amended.  On a descriptor that is not empty.  The non-blocking
    existence check turns a rejection [e] of the resolution into [false] when
    its code is [ENOENT]; when its code is [EPERM], into [false] on Windows,
    and raises it again on any other platform; and when it has any other
    code, into [undefined]: it is not propagated.  The access function of the
    blocking existence check does the same with a failure [e] of the stat of
    a candidate.  When the selected algorithm has one entry, and the stat of
    that entry fails with [e], this is the outcome of the whole operation, in
    both forms. *)
Theorem hasContent_error_policy (e : Error) :
  let policy : Result value :=
    if has_code "ENOENT" e then Return (VBool false)
    else if has_code "EPERM" e then
           if String.eqb (platform E) "win32" then Return (VBool false)
           else Throw (VError e)
         else Return VUndefined in
  (forall fuel cache integrity sched p w w',
      falsy_input integrity = false ->
      withContentSri E fuel cache integrity (hasContent_fn E) sched = Some p ->
      p w = (Rejected (VError e), w') ->
      exists q,
        hasContent E fuel cache integrity sched = Some q /\
        q w = (settled_of policy, w')) /\
  (forall cpath sri w w',
      lstatSync E cpath w = (Throw (VError e), w') ->
      hasContentSync_fn E cpath sri w = (policy, w')) /\
  (forall fuel cache integrity sri algo d w w',
      falsy_input integrity = false ->
      parse E integrity = Return sri ->
      pickAlgorithm E sri = Return algo ->
      sri_get sri algo = Some [d] ->
      lstatSync E (contentPath E cache d) w = (Throw (VError e), w') ->
      exists run,
        hasContentSync E (S fuel) cache integrity = Some run /\
        run w = (policy, w')) /\
  (forall fuel cache integrity sched sri algo d w w',
      falsy_input integrity = false ->
      parse E integrity = Return sri ->
      pickAlgorithm E sri = Return algo ->
      sri_get sri algo = Some [d] ->
      lstat E (contentPath E cache d) w = (Rejected (VError e), w') ->
      exists q,
        hasContent E (S fuel) cache integrity sched = Some q /\
        q w = (settled_of policy, w')).
Proof.
  intros policy.
  assert (forall w, hasContent_handler E (VError e) w = (policy, w)) as Hh.
  { intros w. apply hasContent_handler_cases. }
  assert (forall cpath sri w w',
             lstatSync E cpath w = (Throw (VError e), w') ->
             hasContentSync_fn E cpath sri w = (policy, w')) as Hsync.
  { intros cpath sri w w' Hstat. unfold hasContentSync_fn, try_catch, bind.
    rewrite Hstat. apply Hh. }
  assert (forall fuel cache integrity sched p w w',
             falsy_input integrity = false ->
             withContentSri E fuel cache integrity (hasContent_fn E) sched = Some p ->
             p w = (Rejected (VError e), w') ->
             exists q,
               hasContent E fuel cache integrity sched = Some q /\
               q w = (settled_of policy, w')) as Hasync.
  { intros fuel cache integrity sched p w w' Hin Hp Hrun.
    destruct (hasContent_on_failure fuel cache integrity sched p e w w' Hin Hp Hrun)
      as (q & Hq & Hrun').
    exists q. split; [exact Hq|]. rewrite Hrun', Hh. reflexivity. }
  split; [exact Hasync|]. split; [exact Hsync|]. split.
  - intros fuel cache integrity sri algo d w w' Hin Hp Hk Hg Hstat.
    eexists. split.
    + unfold hasContentSync. rewrite Hin.
      eapply withContentSriSync_single; eassumption.
    + apply Hsync, Hstat.
  - intros fuel cache integrity sched sri algo d w w' Hin Hp Hk Hg Hstat.
    eapply Hasync; [exact Hin | eapply withContentSri_single; eassumption |].
    rewrite new_Promise_run. unfold hasContent_fn, then_. rewrite Hstat. reflexivity.
Qed.

End Existence.

(** ** Runs in the concrete world *)

Lemma toy_entry_law (plat : string) (fs : Toy.Fs) (with_copy : bool) :
  entry_law (Toy.env plat fs with_copy).
Proof.
  intros h. exists [(algorithm h, [h])], (algorithm h).
  repeat split. simpl. rewrite String.eqb_refl. reflexivity.
Defined.

(** The second candidate settles first and succeeds, the first one has no
    content: the success is the result. *)
Example first_truthy_success_second_settles_first :
  exists p,
    withContentSri (Toy.linux Toy.fs_second) 2 "c" Toy.two
      (read_fn (Toy.linux Toy.fs_second) Toy.no_size) [1; 0]%nat = Some p /\
    p [] = (Fulfilled (VBuffer Toy.bytes_cd),
            [Toy.EvReadFile "c/sha1/cd"; Toy.EvCheckData Toy.h2;
             Toy.EvReadFile "c/sha1/ab"]).
Proof.
  apply (withContentSri_first_truthy_success (Toy.linux Toy.fs_second)
           (toy_entry_law "linux" Toy.fs_second true) 0 "c" Toy.two
           (read_fn (Toy.linux Toy.fs_second) Toy.no_size) [1; 0]%nat
           Toy.both "sha1" [Toy.h1; Toy.h2] eq_refl eq_refl eq_refl (le_n 2)
           [] _ [Toy.fs_err "ENOENT" "c/sha1/ab"] (VBuffer Toy.bytes_cd) []);
    try reflexivity.
  constructor.
Qed.

(** The second candidate has succeeded and the first one has not settled:
    the promise is pending. *)
Example waits_for_the_first_candidate :
  exists p,
    withContentSri (Toy.linux Toy.fs_second) 2 "c" Toy.two
      (read_fn (Toy.linux Toy.fs_second) Toy.no_size) [1]%nat = Some p /\
    p [] = (Pending, [Toy.EvReadFile "c/sha1/cd"; Toy.EvCheckData Toy.h2]).
Proof.
  apply (withContentSri_waits_for_all (Toy.linux Toy.fs_second)
           (toy_entry_law "linux" Toy.fs_second true) 0 "c" Toy.two
           (read_fn (Toy.linux Toy.fs_second) Toy.no_size) [1]%nat
           Toy.both "sha1" [Toy.h1; Toy.h2] eq_refl eq_refl eq_refl (le_n 2)
           [] _ [None; Some (Fulfilled (VBuffer Toy.bytes_cd))] 0%nat);
    try reflexivity.
  intros [|[|j]] o t Hj; try discriminate.
  injection Hj as <-. discriminate.
Qed.

(** C1, failing inputs.  [copy] on a descriptor with two entries for the
    selected algorithm.  With both contents in the store, both copies succeed
    (with the value [undefined]) and the promise is rejected with a
    [TypeError]; with the second content only, the second copy succeeds and
    the promise is rejected with the aggregate [ENOENT].  In neither case is
    the earliest success returned. *)
Theorem copy_two_entries_loses_success :
  Toy.run_promise (copy (Toy.linux Toy.fs_both) 2 "c" Toy.two "dst" Toy.no_size [0; 1]%nat)
  = Some (Rejected (TypeError "Cannot read property 'code' of undefined"),
          [Toy.EvCopyFile "c/sha1/ab" "dst"; Toy.EvCopyFile "c/sha1/cd" "dst"])
  /\
  Toy.run_promise (copy (Toy.linux Toy.fs_second) 2 "c" Toy.two "dst" Toy.no_size [0; 1]%nat)
  = Some (Rejected (VError (no_match_error (Toy.linux Toy.fs_second) Toy.both)),
          [Toy.EvCopyFile "c/sha1/ab" "dst"; Toy.EvCopyFile "c/sha1/cd" "dst"])
  /\
  Toy.run_sync (copySync (Toy.linux Toy.fs_second) 2 "c" Toy.two "dst" Toy.no_size)
  = Some (Return VUndefined,
          [Toy.EvCopyFile "c/sha1/ab" "dst"; Toy.EvCopyFile "c/sha1/cd" "dst"]).
Proof. repeat split. Qed.

(** C3, counterexample.  On Linux.  The existence check on a content whose
    stat fails with [EACCES]: the failure does not reach the caller; the
    non-blocking form fulfils with [undefined] and the blocking form returns
    [undefined].  And on a descriptor with two entries, the stat of the first
    failing with [EPERM] and the second content missing: the [EPERM] is not
    raised again, both forms yield [false]. *)
Lemma hasContent_other_code_counterexample :
  Toy.run_promise (hasContent (Toy.linux (Toy.fs_denied "EACCES")) 2 "c" Toy.one [])
  = Some (Fulfilled VUndefined, [Toy.EvLstat "c/sha1/ab"])
  /\
  Toy.run_sync (hasContentSync (Toy.linux (Toy.fs_denied "EACCES")) 2 "c" Toy.one)
  = Some (Return VUndefined, [Toy.EvLstat "c/sha1/ab"])
  /\
  Toy.run_promise (hasContent (Toy.linux (Toy.fs_denied "EPERM")) 2 "c" Toy.two [0; 1]%nat)
  = Some (Fulfilled (VBool false), [Toy.EvLstat "c/sha1/ab"; Toy.EvLstat "c/sha1/cd"])
  /\
  Toy.run_sync (hasContentSync (Toy.linux (Toy.fs_denied "EPERM")) 2 "c" Toy.two)
  = Some (Return (VBool false), [Toy.EvLstat "c/sha1/ab"; Toy.EvLstat "c/sha1/cd"]).
Proof. repeat split. Qed.

(** C5, counterexample.  A size that is supplied and differs from the two
    bytes read, without [EBADSIZE]: as the string "3", on a descriptor with
    one entry, both reads return the bytes; as the number 3, on a descriptor
    with two entries of which the second has no content, the non-blocking
    read is rejected with the aggregate [ENOENT] and the blocking read throws
    the [ENOENT] of the second candidate. *)
Lemma read_size_mismatch_counterexample :
  Toy.run_promise (read (Toy.linux Toy.fs_first) 2 "c" Toy.one (mkReadOpts (VString "3")) [])
  = Some (Fulfilled (VBuffer Toy.bytes_ab),
          [Toy.EvReadFile "c/sha1/ab"; Toy.EvCheckData Toy.h1])
  /\
  Toy.run_sync (readSync (Toy.linux Toy.fs_first) 2 "c" Toy.one (mkReadOpts (VString "3")))
  = Some (Return (VBuffer Toy.bytes_ab),
          [Toy.EvReadFile "c/sha1/ab"; Toy.EvCheckData Toy.h1])
  /\
  Toy.run_promise
    (read (Toy.linux Toy.fs_first) 2 "c" Toy.two (mkReadOpts (VNumber 3)) [0; 1]%nat)
  = Some (Rejected (VError (no_match_error (Toy.linux Toy.fs_first) Toy.both)),
          [Toy.EvReadFile "c/sha1/ab"; Toy.EvReadFile "c/sha1/cd"])
  /\
  Toy.run_sync (readSync (Toy.linux Toy.fs_first) 2 "c" Toy.two (mkReadOpts (VNumber 3)))
  = Some (Throw (Toy.fs_error "ENOENT" "c/sha1/cd"),
          [Toy.EvReadFile "c/sha1/ab"; Toy.EvReadFile "c/sha1/cd"]).
Proof. repeat split. Qed.

(** C6, counterexample.  A descriptor with two entries; the content of the
    first holds other bytes, the second has no content; no size.  The bytes
    read fail the digest check, and the operation does not fail with
    [EINTEGRITY]: the non-blocking read is rejected with the aggregate
    [ENOENT], the blocking read throws the [ENOENT] of the second
    candidate. *)
Lemma read_integrity_mismatch_counterexample :
  Toy.run_promise (read (Toy.linux Toy.fs_tampered) 2 "c" Toy.two Toy.no_size [0; 1]%nat)
  = Some (Rejected (VError (no_match_error (Toy.linux Toy.fs_tampered) Toy.both)),
          [Toy.EvReadFile "c/sha1/ab"; Toy.EvCheckData Toy.h1; Toy.EvReadFile "c/sha1/cd"])
  /\
  Toy.run_sync (readSync (Toy.linux Toy.fs_tampered) 2 "c" Toy.two Toy.no_size)
  = Some (Throw (Toy.fs_error "ENOENT" "c/sha1/cd"),
          [Toy.EvReadFile "c/sha1/ab"; Toy.EvCheckData Toy.h1; Toy.EvReadFile "c/sha1/cd"]).
Proof. repeat split. Qed.

(** C8, counterexample.  A descriptor with two entries; the first content
    is missing, the second has two bytes; the size option is the number 3.
    [read] is rejected with the aggregate [ENOENT], [readSync] throws the
    [EBADSIZE] of the second candidate: the size differs from the bytes read
    and the two forms do not fail alike. *)
Lemma read_readSync_several_entries_counterexample :
  Toy.run_promise
    (read (Toy.linux Toy.fs_second) 2 "c" Toy.two (mkReadOpts (VNumber 3)) [0; 1]%nat)
  = Some (Rejected (VError (no_match_error (Toy.linux Toy.fs_second) Toy.both)),
          [Toy.EvReadFile "c/sha1/ab"; Toy.EvReadFile "c/sha1/cd"])
  /\
  Toy.run_sync (readSync (Toy.linux Toy.fs_second) 2 "c" Toy.two (mkReadOpts (VNumber 3)))
  = Some (Throw (sizeError 3 2),
          [Toy.EvReadFile "c/sha1/ab"; Toy.EvReadFile "c/sha1/cd"]).
Proof. repeat split. Qed.


(** ** The theorems at concrete inputs *)

Lemma withContentSri_all_failed_witness :
  exists p,
    withContentSri (Toy.linux Toy.fs_none) 2 "c" Toy.two
      (read_fn (Toy.linux Toy.fs_none) Toy.no_size) [1; 0]%nat = Some p /\
    p [] = (Rejected (VError (no_match_error (Toy.linux Toy.fs_none) Toy.both)),
            [Toy.EvReadFile "c/sha1/cd"; Toy.EvReadFile "c/sha1/ab"]).
Proof.
  destruct (withContentSri_all_failed (Toy.linux Toy.fs_none)
              (toy_entry_law "linux" Toy.fs_none true) 0 "c" Toy.two
              (read_fn (Toy.linux Toy.fs_none) Toy.no_size) [1; 0]%nat
              Toy.both "sha1" [Toy.h1; Toy.h2] eq_refl eq_refl eq_refl (le_n 2)
              [] [Toy.EvReadFile "c/sha1/cd"; Toy.EvReadFile "c/sha1/ab"]
              [Toy.fs_err "ENOENT" "c/sha1/ab"; Toy.fs_err "ENOENT" "c/sha1/cd"]
              eq_refl)
    as (p & Hp & Henoent & _).
  exists p. split; [exact Hp|]. apply Henoent. reflexivity.
Defined.

Lemma withContentSriSync_in_order_witness :
  exists run,
    withContentSriSync (Toy.linux Toy.fs_second) 2 "c" Toy.two
      (readSync_fn (Toy.linux Toy.fs_second) Toy.no_size) = Some run /\
    run [] = (Return (VBuffer Toy.bytes_cd),
              [Toy.EvReadFile "c/sha1/ab"; Toy.EvReadFile "c/sha1/cd";
               Toy.EvCheckData Toy.h2]).
Proof.
  destruct (withContentSriSync_in_order (Toy.linux Toy.fs_second)
              (toy_entry_law "linux" Toy.fs_second true) 0 "c" Toy.two
              (readSync_fn (Toy.linux Toy.fs_second) Toy.no_size)
              Toy.both "sha1" [Toy.h1; Toy.h2] eq_refl eq_refl eq_refl (le_n 2))
    as (run & Hrun & Hfirst & _).
  exists run. split; [exact Hrun|].
  apply (Hfirst [Toy.h1] Toy.h2 [] [] [Toy.fs_error "ENOENT" "c/sha1/ab"]
           [Toy.EvReadFile "c/sha1/ab"]).
  - reflexivity.
  - eapply all_throw_cons; [reflexivity | apply all_throw_nil].
  - reflexivity.
Defined.

Lemma hasContent_error_policy_witness :
  (exists run,
      hasContentSync (Toy.linux (Toy.fs_denied "EPERM")) 1 "c" Toy.one = Some run /\
      run [] = (Throw (Toy.fs_error "EPERM" "c/sha1/ab"), [Toy.EvLstat "c/sha1/ab"])) /\
  (exists q,
      hasContent (Toy.linux (Toy.fs_denied "EPERM")) 1 "c" Toy.one [] = Some q /\
      q [] = (Rejected (Toy.fs_error "EPERM" "c/sha1/ab"), [Toy.EvLstat "c/sha1/ab"])).
Proof.
  destruct (hasContent_error_policy (Toy.linux (Toy.fs_denied "EPERM"))
              (Toy.fs_err "EPERM" "c/sha1/ab")) as (_ & _ & Hsync & Hasync).
  split.
  - apply (Hsync 0%nat "c" Toy.one [("sha1", [Toy.h1])] "sha1" Toy.h1 []
             [Toy.EvLstat "c/sha1/ab"]); reflexivity.
  - apply (Hasync 0%nat "c" Toy.one [] [("sha1", [Toy.h1])] "sha1" Toy.h1 []
             [Toy.EvLstat "c/sha1/ab"]); reflexivity.
Defined.

Lemma read_size_mismatch_witness :
  read_fn (Toy.linux Toy.fs_first) (mkReadOpts (VNumber 3)) "c/sha1/ab" Toy.h1 []
  = (Rejected (sizeError 3 2), [Toy.EvReadFile "c/sha1/ab"]).
Proof.
  apply (proj1 (proj2 (read_size_mismatch (Toy.linux Toy.fs_first)
                         (mkReadOpts (VNumber 3)) Toy.bytes_ab 3 eq_refl
                         ltac:(discriminate)))).
  reflexivity.
Defined.

Lemma read_integrity_mismatch_witness :
  read_fn (Toy.linux Toy.fs_tampered) Toy.no_size "c/sha1/ab" Toy.h1 []
  = (Rejected (integrityError Toy.hash_str Toy.h1 "c/sha1/ab"),
     [Toy.EvReadFile "c/sha1/ab"; Toy.EvCheckData Toy.h1]).
Proof.
  apply (proj1 (proj2 (read_integrity_mismatch (Toy.linux Toy.fs_tampered)
                         Toy.no_size Toy.bytes_cd eq_refl))
           "c/sha1/ab" Toy.h1 [] [Toy.EvReadFile "c/sha1/ab"]);
    reflexivity.
Defined.


Lemma read_readSync_same_validation_witness :
  exists (r : Result value) (w2 : Toy.W),
    read_fn (Toy.linux Toy.fs_first) Toy.no_size "c/sha1/ab" Toy.h1 [] = (settled_of r, w2) /\
    readSync_fn (Toy.linux Toy.fs_first) Toy.no_size "c/sha1/ab" Toy.h1 [] = (r, w2) /\
    r = Return (VBuffer Toy.bytes_ab) /\
    exists p run,
      read (Toy.linux Toy.fs_first) 1 "c" Toy.one Toy.no_size [] = Some p /\
      readSync (Toy.linux Toy.fs_first) 1 "c" Toy.one Toy.no_size = Some run /\
      p [] = (settled_of r, w2) /\
      run [] = (r, w2).
Proof.
  destruct (read_readSync_same_validation (Toy.linux Toy.fs_first) Toy.no_size
              "c/sha1/ab" Toy.h1 Toy.bytes_ab [] [Toy.EvReadFile "c/sha1/ab"]
              eq_refl eq_refl)
    as (r & w2 & Ha & Hs & Hr & _ & _ & _ & Hop).
  exists r, w2. split; [exact Ha|]. split; [exact Hs|].
  split; [rewrite Hr; reflexivity|].
  exact (Hop 0%nat "c" Toy.one [] [("sha1", [Toy.h1])] "sha1"
           eq_refl eq_refl eq_refl eq_refl).
Defined.


Lemma read_size_not_number_witness :
  read_fn (Toy.linux Toy.fs_first) (mkReadOpts (VString "3")) "c/sha1/ab" Toy.h1 []
  = (Fulfilled (VBuffer Toy.bytes_ab),
     [Toy.EvReadFile "c/sha1/ab"; Toy.EvCheckData Toy.h1]).
Proof.
  apply (proj1 (proj2 (proj2 (read_size_not_number (Toy.linux Toy.fs_first)
                                (mkReadOpts (VString "3")) Toy.bytes_ab eq_refl)))
           "c/sha1/ab" Toy.h1 [] [Toy.EvReadFile "c/sha1/ab"]).
  reflexivity.
Defined.

(** * Further properties *)

(** ** Where a result comes from *)

Section Origin.

Context {World : Type} (E : Env World).

(** A settled slot of [Promise.all] was settled by a run of its promise. *)
Lemma all_settle_origin {A} (sched : list nat) (ps : list (Promise World A)) :
  forall slots rej (w : World) slots' rej' w' j o,
    all_settle sched ps slots rej w = (slots', rej', w') ->
    slots' !! j = Some (Some o) ->
    slots !! j = Some (Some o) \/
    exists p w1 w2, ps !! j = Some p /\ p w1 = (o, w2).
Proof.
  induction sched as [|i sched IH]; intros slots rej w slots' rej' w' j o H Hj;
    simpl in H.
  - injection H as <- _ _. left. exact Hj.
  - destruct (ps !! i) as [p|] eqn:Hp; [|eauto].
    destruct (slots !! i) as [[o'|]|] eqn:Hi; [eauto| |eauto].
    destruct (p w) as [[a|e|] w1] eqn:Hrun.
    + destruct (IH _ _ _ _ _ _ j o H Hj) as [Hin|Horigin]; [|right; exact Horigin].
      apply list_lookup_insert_Some in Hin as [(<- & Heq & _)|(_ & Hin)].
      * injection Heq as <-. right. eauto.
      * left. exact Hin.
    + destruct (IH _ _ _ _ _ _ j o H Hj) as [Hin|Horigin]; [|right; exact Horigin].
      apply list_lookup_insert_Some in Hin as [(<- & Heq & _)|(_ & Hin)].
      * injection Heq as <-. right. eauto.
      * left. exact Hin.
    + eauto.
Qed.

Lemma candidate_outcomes_origin cache (fn : string -> Hash -> Promise World value)
    ds sched (w w' : World) slots j o :
  candidate_outcomes E cache fn ds sched w = (slots, w') ->
  slots !! j = Some (Some o) ->
  exists d w1 w2, ds !! j = Some d /\ fn (contentPath E cache d) d w1 = (o, w2).
Proof.
  unfold candidate_outcomes.
  destruct (all_settle sched _ (replicate (length ds) None) None w)
    as [[slots0 rej0] w0] eqn:Hrun.
  intros H Hj. injection H as -> _.
  destruct (all_settle_origin _ _ _ _ _ _ _ _ j o Hrun Hj) as [Hin|(p & w1 & w2 & Hp & Hpo)].
  - apply lookup_replicate in Hin as [Hin _]. discriminate.
  - rewrite list_lookup_fmap in Hp.
    destruct (ds !! j) as [d|]; [|discriminate]. injection Hp as <-.
    exists d, w1, w2. split; [reflexivity | exact Hpo].
Qed.

(** The collected results, slot by slot. *)
Lemma fulfilled_values_lookup (sri : Integrity) (slots : list (option (Settled value))) :
  forall results,
    fulfilled_values (fmap (M:=list) (fmap (M:=option) (guarded_outcome E sri)) slots)
      = Some results ->
    length results = length slots /\
    forall j r, results !! j = Some r ->
      exists o, slots !! j = Some (Some o) /\ guarded_outcome E sri o = Fulfilled r.
Proof.
  induction slots as [|s slots IH]; intros results H.
  - simpl in H. injection H as <-. split; [reflexivity|]. intros j r Hj. discriminate.
  - cbn [fmap list_fmap] in H.
    destruct s as [o|]; [|discriminate]. cbn [fmap option_fmap option_map] in H.
    destruct (guarded_outcome E sri o) as [a|e|] eqn:Ho; cbn [fulfilled_values] in H;
      try discriminate.
    destruct (fulfilled_values _) as [l|] eqn:Hl; [|discriminate].
    injection H as <-. destruct (IH l eq_refl) as [Hlen Hlook].
    split; [simpl; rewrite Hlen; reflexivity|].
    intros [|j] r Hj; simpl in Hj.
    + injection Hj as <-. exists o. split; [reflexivity | exact Ho].
    + exact (Hlook j r Hj).
Qed.

Lemma array_find_no_error_instance (results : list value) (g : value) :
  array_find (fun r => Return (instanceof_Error r)) results = Return g ->
  truthy g = false ->
  Forall (fun r => instanceof_Error r = false) results.
Proof.
  induction results as [|r results IH]; intros H Hg; [constructor|].
  simpl in H. destruct (instanceof_Error r) eqn:Hr.
  - injection H as <-. destruct r; discriminate.
  - constructor; [exact Hr | exact (IH H Hg)].
Qed.

Lemma array_find_non_error_member (results : list value) (r0 : value) :
  array_find (fun r => Return (negb (instanceof_Error r))) results = Return r0 ->
  truthy r0 = true ->
  exists j, results !! j = Some r0 /\ instanceof_Error r0 = false.
Proof.
  induction results as [|r results IH]; intros H Ht.
  - injection H as <-. discriminate.
  - simpl in H. destruct (instanceof_Error r) eqn:Hr; simpl in H.
    + destruct (IH H Ht) as (j & Hj & Hne). exists (S j). split; assumption.
    + injection H as <-. exists 0%nat. split; [reflexivity | exact Hr].
Qed.

(** What [pick_result] returns is one of the results, truthy and not an
    error; or it is [undefined], when no result is an error and the first
    one is falsy. *)
Lemma pick_result_Return (results : list value) (v : value) :
  pick_result results = Return v ->
  (exists j, results !! j = Some v /\ instanceof_Error v = false /\ truthy v = true)
  \/ (v = VUndefined /\
      match results with
      | [] => True
      | r :: _ => instanceof_Error r = false /\ truthy r = false
      end).
Proof.
  unfold pick_result.
  destruct (array_find (fun r => Return (negb (instanceof_Error r))) results)
    as [result|e] eqn:Hfirst; [|discriminate].
  destruct (truthy result) eqn:Ht.
  - intros H. injection H as <-. left.
    destruct (array_find_non_error_member results result Hfirst Ht) as (j & Hj & Hne).
    exists j. repeat split; assumption.
  - match goal with
    | |- match ?find with _ => _ end = _ -> _ =>
        destruct find as [enoentError|e]; [|intros H; discriminate H]
    end.
    destruct (truthy enoentError); [intros H; discriminate H|].
    destruct (array_find (fun r => Return (instanceof_Error r)) results)
      as [genericError|e] eqn:Hthird; [|intros H; discriminate H].
    destruct (truthy genericError) eqn:Hg; [intros H; discriminate H|].
    intros H. injection H as <-. right. split; [reflexivity|].
    pose proof (array_find_no_error_instance results genericError Hthird Hg) as Hall.
    destruct results as [|r results]; [exact I|].
    apply Forall_cons in Hall as [Hr _]. simpl in Hfirst. rewrite Hr in Hfirst.
    simpl in Hfirst. injection Hfirst as <-. split; assumption.
Qed.

(** The loop of the blocking resolver returns what one of the attempts
    returned, as long as the values thrown are truthy; with no attempt at all
    it returns [undefined] after a falsy [lastErr]. *)
Lemma for_of_try_Return (attempts : list (Sync World value)) :
  forall lastErr (w w' : World) v,
    for_of_try attempts lastErr w = (Return v, w') ->
    (forall j attempt w1 e w2,
        attempts !! j = Some attempt -> attempt w1 = (Throw e, w2) -> truthy e = true) ->
    (exists j attempt w1 w2, attempts !! j = Some attempt /\ attempt w1 = (Return v, w2))
    \/ (attempts = [] /\ truthy lastErr = false /\ v = VUndefined).
Proof.
  induction attempts as [|a attempts IH]; intros lastErr w w' v H Hthrown.
  - simpl in H. destruct (truthy lastErr) eqn:Ht; [discriminate|].
    injection H as <- _. right. repeat split.
  - cbn [for_of_try] in H. destruct (a w) as [[v0|e] w1] eqn:Ha.
    + injection H as <- <-. left. exists 0%nat, a, w, w1. split; [reflexivity | exact Ha].
    + destruct (IH e w1 w' v H) as [(j & b & wa & wb & Hj & Hb)|(_ & Ht & _)].
      * intros j b wa e' wb Hj Hb. exact (Hthrown (S j) b wa e' wb Hj Hb).
      * left. exists (S j), b, wa, wb. split; assumption.
      * rewrite (Hthrown 0%nat a w e w1 eq_refl Ha) in Ht. discriminate.
Qed.

End Origin.

Section ResultOrigin.

Context {World : Type} (E : Env World).
Hypothesis law : entry_law E.

(** Several entries: a fulfilled resolution carries what the access function
    fulfilled with on one of them. *)
Lemma withContentSri_multi_origin fuel cache integrity
    (fn : string -> Hash -> Promise World value) sched sri algo ds p (w w' : World) v :
  parse E integrity = Return sri ->
  pickAlgorithm E sri = Return algo ->
  sri_get sri algo = Some ds ->
  (1 < length ds)%nat ->
  well_behaved fn ->
  withContentSri E (S (S fuel)) cache integrity fn sched = Some p ->
  p w = (Fulfilled v, w') ->
  exists d w1 w2, d ∈ ds /\ fn (contentPath E cache d) d w1 = (Fulfilled v, w2).
Proof.
  intros Hp Hk Hg Hlen Hfn Hsome Hrun.
  destruct (candidate_outcomes E cache fn ds sched w) as [slots w''] eqn:Hout.
  assert (forall j o, slots !! j = Some (Some o) ->
            exists d w1 w2, ds !! j = Some d /\
              fn (contentPath E cache d) d w1 = (o, w2) /\
              match o with
              | Fulfilled a => instanceof_Error a = false /\ truthy a = true
              | Rejected e => exists err, e = VError err
              | Pending => True
              end) as Hclean.
  { intros j o Hj.
    destruct (candidate_outcomes_origin E cache fn ds sched w w'' slots j o Hout Hj)
      as (d & w1 & w2 & Hd & Ho).
    exists d, w1, w2. split; [exact Hd|]. split; [exact Ho|].
    specialize (Hfn (contentPath E cache d) d w1). rewrite Ho in Hfn. exact Hfn. }
  destruct (withContentSri_multi_run E law fuel cache integrity fn sched sri algo ds
              Hp Hk Hg Hlen w w'' slots Hout) as (p' & Hsome' & Hrun').
  { intros j o t Hj Ho. destruct (Hclean j o Hj) as (_ & _ & _ & _ & _ & Hkind).
    destruct o as [a|e|]; try discriminate.
    destruct Hkind as [err ->]. rewrite guarded_outcome_error in Ho. discriminate. }
  rewrite Hsome in Hsome'. injection Hsome' as <-. rewrite Hrun in Hrun'.
  destruct (fulfilled_values _) as [results|] eqn:Hfv; [|discriminate].
  destruct (pick_result results) as [v'|e] eqn:Hpick; [|discriminate].
  injection Hrun' as -> _.
  destruct (fulfilled_values_lookup E sri slots results Hfv) as [Hlenr Hlook].
  destruct (pick_result_Return results v' Hpick)
    as [(j & Hj & Hne & _)|(_ & Hfirst)].
  - destruct (Hlook j v' Hj) as (o & Ho & Hgo).
    destruct (Hclean j o Ho) as (d & w1 & w2 & Hd & Hfnd & Hkind).
    destruct o as [a|e|].
    + simpl in Hgo. injection Hgo as ->. exists d, w1, w2. split; [|exact Hfnd].
      apply list_elem_of_lookup. exists j. exact Hd.
    + destruct Hkind as [err ->]. rewrite guarded_outcome_error in Hgo.
      injection Hgo as <-. discriminate.
    + discriminate.
  - destruct results as [|r results].
    + apply candidate_outcomes_length in Hout. simpl in Hlenr. lia.
    + destruct Hfirst as [Hr Hfalsy].
      destruct (Hlook 0%nat r eq_refl) as (o & Ho & Hgo).
      destruct (Hclean 0%nat o Ho) as (_ & _ & _ & _ & _ & Hkind).
      destruct o as [a|e|].
      * simpl in Hgo. injection Hgo as ->. destruct Hkind as [_ Ht]. congruence.
      * destruct Hkind as [err ->]. rewrite guarded_outcome_error in Hgo.
        injection Hgo as <-. discriminate.
      * discriminate.
Qed.

(** Any descriptor: a fulfilled resolution carries what the access function
    fulfilled with on one entry of the selected algorithm. *)
Lemma withContentSri_fulfilled_origin fuel cache integrity
    (fn : string -> Hash -> Promise World value) sched p (w w' : World) v :
  well_behaved fn ->
  withContentSri E (S (S fuel)) cache integrity fn sched = Some p ->
  p w = (Fulfilled v, w') ->
  exists sri algo ds d w1 w2,
    parse E integrity = Return sri /\
    pickAlgorithm E sri = Return algo /\
    sri_get sri algo = Some ds /\
    d ∈ ds /\
    fn (contentPath E cache d) d w1 = (Fulfilled v, w2).
Proof.
  intros Hfn Hsome Hrun.
  destruct (parse E integrity) as [sri|e] eqn:Hp.
  2:{ rewrite withContentSri_unfold, Hp in Hsome. injection Hsome as <-. discriminate. }
  destruct (pickAlgorithm E sri) as [algo|e] eqn:Hk.
  2:{ rewrite withContentSri_unfold, Hp, Hk in Hsome. injection Hsome as <-. discriminate. }
  destruct (sri_get sri algo) as [ds|] eqn:Hg.
  2:{ rewrite withContentSri_unfold, Hp, Hk, Hg in Hsome. injection Hsome as <-.
      discriminate. }
  destruct ds as [|d [|d' ds]].
  - rewrite withContentSri_unfold, Hp, Hk, Hg in Hsome. injection Hsome as <-.
    discriminate.
  - rewrite (withContentSri_single E (S fuel) cache integrity fn sched sri algo d Hp Hk Hg)
      in Hsome.
    injection Hsome as <-.
    change (new_Promise (Return (fn (contentPath E cache d) d)) w = (Fulfilled v, w'))
      in Hrun.
    rewrite new_Promise_run in Hrun.
    exists sri, algo, [d], d, w, w'. repeat split; try assumption. apply list_elem_of_here.
  - destruct (withContentSri_multi_origin fuel cache integrity fn sched sri algo
                (d :: d' :: ds) p w w' v Hp Hk Hg) as (d0 & w1 & w2 & Hin & Hd0);
      try assumption; [simpl; lia|].
    exists sri, algo, (d :: d' :: ds), d0, w1, w2. repeat split; assumption.
Qed.

(** Any descriptor: what the blocking resolver returns is what the access
    function returned on one entry of the selected algorithm. *)
Lemma withContentSriSync_returned_origin fuel cache integrity
    (fn : string -> Hash -> Sync World value) run (w w' : World) v :
  throws_errors fn ->
  withContentSriSync E (S (S fuel)) cache integrity fn = Some run ->
  run w = (Return v, w') ->
  exists sri algo ds d w1 w2,
    parse E integrity = Return sri /\
    pickAlgorithm E sri = Return algo /\
    sri_get sri algo = Some ds /\
    d ∈ ds /\
    fn (contentPath E cache d) d w1 = (Return v, w2).
Proof.
  intros Hfn Hsome Hrun.
  destruct (parse E integrity) as [sri|e] eqn:Hp.
  2:{ rewrite withContentSriSync_unfold, Hp in Hsome. injection Hsome as <-. discriminate. }
  destruct (pickAlgorithm E sri) as [algo|e] eqn:Hk.
  2:{ rewrite withContentSriSync_unfold, Hp, Hk in Hsome. injection Hsome as <-.
      discriminate. }
  destruct (sri_get sri algo) as [ds|] eqn:Hg.
  2:{ rewrite withContentSriSync_unfold, Hp, Hk, Hg in Hsome. injection Hsome as <-.
      discriminate. }
  destruct ds as [|d [|d' ds]].
  - rewrite withContentSriSync_unfold, Hp, Hk, Hg in Hsome. injection Hsome as <-.
    discriminate.
  - rewrite (withContentSriSync_single E (S fuel) cache integrity fn sri algo d Hp Hk Hg)
      in Hsome.
    injection Hsome as <-.
    exists sri, algo, [d], d, w, w'. repeat split; try assumption. apply list_elem_of_here.
  - rewrite (withContentSriSync_multi E law fuel cache integrity fn sri algo
               (d :: d' :: ds) Hp Hk Hg) in Hsome by (simpl; lia).
    assert (run = for_of_try
                    ((fun d0 => fn (contentPath E cache d0) d0) <$> (d :: d' :: ds))
                    VNull) as -> by congruence.
    destruct (for_of_try_Return _ _ _ _ _ Hrun) as [(j & a & w1 & w2 & Hj & Ha)|(Hnil & _)].
    + intros j a w1 e w2 Hj Ha. rewrite list_lookup_fmap in Hj.
      destruct (_ !! j) as [d0|]; [|discriminate]. injection Hj as <-.
      destruct (Hfn _ _ _ _ _ Ha) as [err ->]. reflexivity.
    + rewrite list_lookup_fmap in Hj.
      destruct ((d :: d' :: ds) !! j) as [d0|] eqn:Hd0; [|discriminate].
      injection Hj as <-.
      exists sri, algo, (d :: d' :: ds), d0, w1, w2. repeat split; try assumption.
      apply list_elem_of_lookup. exists j. exact Hd0.
    + discriminate.
Qed.

(** X1. Neither resolver makes up a result.  When the non-blocking resolver
    fulfils, on an access function that fulfils with truthy values that are
    not errors and rejects with errors, the value is what the access function
    fulfilled with on one entry of the selected algorithm; when the blocking
    resolver returns, on an access function that throws errors, the value is
    what the access function returned on one such entry. *)
Theorem resolver_result_origin fuel cache integrity
    (fn : string -> Hash -> Promise World value)
    (fnSync : string -> Hash -> Sync World value) sched :
  well_behaved fn ->
  throws_errors fnSync ->
  (forall p w w' v,
      withContentSri E (S (S fuel)) cache integrity fn sched = Some p ->
      p w = (Fulfilled v, w') ->
      exists sri algo ds d w1 w2,
        parse E integrity = Return sri /\
        pickAlgorithm E sri = Return algo /\
        sri_get sri algo = Some ds /\
        d ∈ ds /\
        fn (contentPath E cache d) d w1 = (Fulfilled v, w2)) /\
  (forall run w w' v,
      withContentSriSync E (S (S fuel)) cache integrity fnSync = Some run ->
      run w = (Return v, w') ->
      exists sri algo ds d w1 w2,
        parse E integrity = Return sri /\
        pickAlgorithm E sri = Return algo /\
        sri_get sri algo = Some ds /\
        d ∈ ds /\
        fnSync (contentPath E cache d) d w1 = (Return v, w2)).
Proof.
  intros Hfn HfnS. split.
  - intros p w w' v. apply withContentSri_fulfilled_origin. exact Hfn.
  - intros run w w' v. apply withContentSriSync_returned_origin. exact HfnS.
Qed.

End ResultOrigin.

(** ** Buffered reads return verified bytes only *)

Section ReadSoundness.

Context {World : Type} (E : Env World).
Hypothesis law : entry_law E.

Variable opts : ReadOpts.

(** The callback of [read] fulfils only with the bytes it has read, after the
    size check has passed and the digest check has accepted them. *)
Lemma read_fn_fulfilled_inv cpath sri (w w' : World) v :
  read_fn E opts cpath sri w = (Fulfilled v, w') ->
  exists data w1,
    readFile E cpath w = (Fulfilled data, w1) /\
    size_differs (opts_size opts) data = false /\
    checkData E data sri w1 = (true, w') /\
    v = VBuffer data.
Proof.
  unfold read_fn, then_, settle, size_differs.
  destruct (readFile E cpath w) as [[data|e|] w1]; try discriminate.
  intros H. exists data, w1. split; [reflexivity|].
  destruct (opts_size opts) as [| |b|n|s|d|h|st|props|e];
    try (destruct (checkData E data sri w1) as [[|] w2]; try discriminate;
         injection H as <- <-; repeat split; reflexivity).
  destruct (n =? Z.of_nat (length data)); simpl in H |- *; [|discriminate].
  destruct (checkData E data sri w1) as [[|] w2]; try discriminate.
  injection H as <- <-. repeat split; reflexivity.
Qed.

Lemma readSync_fn_returned_inv cpath sri (w w' : World) v :
  readSync_fn E opts cpath sri w = (Return v, w') ->
  exists data w1,
    readFileSync E cpath w = (Return data, w1) /\
    size_differs (opts_size opts) data = false /\
    checkData E data sri w1 = (true, w') /\
    v = VBuffer data.
Proof.
  unfold readSync_fn, bind, size_differs.
  destruct (readFileSync E cpath w) as [[data|e] w1]; try discriminate.
  intros H. exists data, w1. split; [reflexivity|].
  destruct (opts_size opts) as [| |b|n|s|d|h|st|props|e];
    try (destruct (checkData E data sri w1) as [[|] w2]; try discriminate;
         injection H as <- <-; repeat split; reflexivity).
  destruct (n =? Z.of_nat (length data)); simpl in H |- *; [|discriminate].
  destruct (checkData E data sri w1) as [[|] w2]; try discriminate.
  injection H as <- <-. repeat split; reflexivity.
Qed.

Lemma read_fn_well_behaved :
  (forall path w e w1, readFile E path w = (Rejected e, w1) -> exists err, e = VError err) ->
  well_behaved (read_fn E opts).
Proof.
  intros Hfs cpath d w.
  destruct (read_fn E opts cpath d w) as [[v|e|] w'] eqn:Hrun; simpl; [| |exact I].
  - destruct (read_fn_fulfilled_inv cpath d w w' v Hrun) as (data & w1 & _ & _ & _ & ->).
    split; reflexivity.
  - revert Hrun. unfold read_fn, then_, settle.
    destruct (readFile E cpath w) as [[data|e0|] w1] eqn:Hread; try discriminate.
    + destruct (opts_size opts) as [| |b|n|s|x|h|st|props|e1];
        try (destruct (checkData E data d w1) as [[|] w2]; intros H; try discriminate;
             injection H as <- _; eexists; reflexivity).
      destruct (negb (n =? Z.of_nat (length data))).
      * intros H. injection H as <- _. eexists; reflexivity.
      * destruct (checkData E data d w1) as [[|] w2]; intros H; try discriminate.
        injection H as <- _. eexists; reflexivity.
    + intros H. injection H as <- _. exact (Hfs cpath w e0 w1 Hread).
Qed.

Lemma readSync_fn_throws_errors :
  (forall path w e w1, readFileSync E path w = (Throw e, w1) -> exists err, e = VError err) ->
  throws_errors (readSync_fn E opts).
Proof.
  intros Hfs cpath d w e w'. unfold readSync_fn, bind.
  destruct (readFileSync E cpath w) as [[data|e0] w1] eqn:Hread.
  - destruct (opts_size opts) as [| |b|n|s|x|h|st|props|e1];
      try (destruct (checkData E data d w1) as [[|] w2]; intros H; try discriminate;
           injection H as <- _; eexists; reflexivity).
    destruct (negb (n =? Z.of_nat (length data))).
    + intros H. injection H as <- _. eexists; reflexivity.
    + destruct (checkData E data d w1) as [[|] w2]; intros H; try discriminate.
      injection H as <- _. eexists; reflexivity.
  - intros H. injection H as <- _. exact (Hfs cpath w e0 w1 Hread).
Qed.

(** X2. With a filesystem that fails with error objects, whatever [read]
    fulfils with and whatever [readSync] returns, on any descriptor and in
    any order of settlement, is the content of the file of one entry of the
    selected algorithm, read in full, of the expected length when the size is
    a number, and accepted by the digest check against that very entry. *)
Theorem read_returns_verified_bytes fuel cache integrity sched :
  (forall path w e w1, readFile E path w = (Rejected e, w1) -> exists err, e = VError err) ->
  (forall path w e w1, readFileSync E path w = (Throw e, w1) -> exists err, e = VError err) ->
  (forall p w w' v,
      read E (S (S fuel)) cache integrity opts sched = Some p ->
      p w = (Fulfilled v, w') ->
      exists sri algo ds d data w1 w2 w3,
        parse E integrity = Return sri /\
        pickAlgorithm E sri = Return algo /\
        sri_get sri algo = Some ds /\
        d ∈ ds /\
        readFile E (contentPath E cache d) w1 = (Fulfilled data, w2) /\
        size_differs (opts_size opts) data = false /\
        checkData E data d w2 = (true, w3) /\
        v = VBuffer data) /\
  (forall run w w' v,
      readSync E (S (S fuel)) cache integrity opts = Some run ->
      run w = (Return v, w') ->
      exists sri algo ds d data w1 w2 w3,
        parse E integrity = Return sri /\
        pickAlgorithm E sri = Return algo /\
        sri_get sri algo = Some ds /\
        d ∈ ds /\
        readFileSync E (contentPath E cache d) w1 = (Return data, w2) /\
        size_differs (opts_size opts) data = false /\
        checkData E data d w2 = (true, w3) /\
        v = VBuffer data).
Proof.
  intros Hfs HfsS. split.
  - intros p w w' v Hsome Hrun.
    destruct (withContentSri_fulfilled_origin E law fuel cache integrity (read_fn E opts)
                sched p w w' v (read_fn_well_behaved Hfs) Hsome Hrun)
      as (sri & algo & ds & d & w1 & w3 & Hp & Hk & Hg & Hin & Hfn).
    destruct (read_fn_fulfilled_inv _ _ _ _ _ Hfn) as (data & w2 & Hread & Hsz & Hcheck & ->).
    exists sri, algo, ds, d, data, w1, w2, w3. repeat split; assumption.
  - intros run w w' v Hsome Hrun.
    destruct (withContentSriSync_returned_origin E law fuel cache integrity
                (readSync_fn E opts) run w w' v (readSync_fn_throws_errors HfsS) Hsome Hrun)
      as (sri & algo & ds & d & w1 & w3 & Hp & Hk & Hg & Hin & Hfn).
    destruct (readSync_fn_returned_inv _ _ _ _ _ Hfn)
      as (data & w2 & Hread & Hsz & Hcheck & ->).
    exists sri, algo, ds, d, data, w1, w2, w3. repeat split; assumption.
Qed.

End ReadSoundness.

(** ** The order of settlement does not matter *)

Section Timing.

Context {World : Type} (E : Env World).

(** Promises whose outcome does not depend on the world: every scheduled
    slot is filled, with that outcome. *)
Lemma all_settle_fills {A} (ps : list (Promise World A)) (outs : list (Settled A)) :
  (forall i p w, ps !! i = Some p ->
     exists o, outs !! i = Some o /\ fst (p w) = o /\ o <> Pending) ->
  forall sched slots rej (w : World) slots' rej' w',
    all_settle sched ps slots rej w = (slots', rej', w') ->
    (forall i o, slots !! i = Some (Some o) -> outs !! i = Some o) ->
    (forall i o, slots' !! i = Some (Some o) -> outs !! i = Some o) /\
    (forall i, i ∈ sched -> (i < length ps)%nat -> (i < length slots)%nat ->
       exists o, slots' !! i = Some (Some o)).
Proof.
  intros Houts.
  induction sched as [|i sched IH]; intros slots rej w slots' rej' w' H Hinv;
    simpl in H.
  - injection H as <- _ _. split; [exact Hinv|]. intros i Hi. inversion Hi.
  - destruct (ps !! i) as [p|] eqn:Hp.
    2:{ destruct (IH _ _ _ _ _ _ H Hinv) as [Hinv' Hfill]. split; [exact Hinv'|].
        intros j Hj Hlt Hlt'. apply elem_of_cons in Hj as [->|Hj]; [|auto].
        apply lookup_ge_None in Hp. exfalso.
        exact (proj1 (Nat.lt_nge _ _) Hlt Hp). }
    destruct (slots !! i) as [[o'|]|] eqn:Hi.
    + destruct (IH _ _ _ _ _ _ H Hinv) as [Hinv' Hfill]. split; [exact Hinv'|].
      intros j Hj Hlt Hlt'. apply elem_of_cons in Hj as [->|Hj]; [|auto].
      exists o'. eapply all_settle_keeps; eassumption.
    + destruct (Houts i p w Hp) as (o & Ho & Hfst & Hnp).
      assert (forall x : Settled A,
                 fst (p w) = x ->
                 forall j o0, <[i:=Some x]> slots !! j = Some (Some o0) ->
                              outs !! j = Some o0) as Hinv1.
      { intros x Hx j o0 Hj.
        apply list_lookup_insert_Some in Hj as [(<- & Heq & _)|(_ & Hj)]; [|eauto].
        injection Heq as <-. rewrite <- Hx, Hfst. exact Ho. }
      assert (forall x : Settled A,
                 forall slots1 rej1 w1,
                   all_settle sched ps (<[i:=Some x]> slots) rej1 w1 = (slots', rej', w') ->
                   (forall j o0, <[i:=Some x]> slots !! j = Some (Some o0) ->
                                 outs !! j = Some o0) ->
                   slots1 = <[i:=Some x]> slots ->
                   (forall j o0, slots' !! j = Some (Some o0) -> outs !! j = Some o0) /\
                   (forall j, j ∈ i :: sched -> (j < length ps)%nat ->
                              (j < length slots)%nat ->
                              exists o0, slots' !! j = Some (Some o0))) as Hstep.
      { intros x slots1 rej1 w1 H1 Hinv2 ->.
        destruct (IH _ _ _ _ _ _ H1 Hinv2) as [Hinv' Hfill]. split; [exact Hinv'|].
        intros j Hj Hlt Hlt'. apply elem_of_cons in Hj as [->|Hj].
        - exists x. eapply all_settle_keeps; [exact H1|].
          apply list_lookup_insert_eq. exact Hlt'.
        - apply Hfill; [exact Hj | exact Hlt |]. rewrite length_insert. exact Hlt'. }
      destruct (p w) as [[a|e|] w1] eqn:Hrun; simpl in Hfst.
      * eapply Hstep; [exact H | apply Hinv1; reflexivity | reflexivity].
      * eapply Hstep; [exact H | apply Hinv1; reflexivity | reflexivity].
      * congruence.
    + destruct (IH _ _ _ _ _ _ H Hinv) as [Hinv' Hfill]. split; [exact Hinv'|].
      intros j Hj Hlt Hlt'. apply elem_of_cons in Hj as [->|Hj]; [|auto].
      apply lookup_ge_None in Hi. exfalso.
      exact (proj1 (Nat.lt_nge _ _) Hlt' Hi).
Qed.

(** Every candidate scheduled, outcomes that do not depend on the world: the
    slots hold the outcomes, in candidate order. *)
Lemma candidate_outcomes_full cache (fn : string -> Hash -> Promise World value)
    (out : Hash -> Settled value) ds sched (w : World) :
  (forall d w0, d ∈ ds -> fst (fn (contentPath E cache d) d w0) = out d /\ out d <> Pending) ->
  (forall i, (i < length ds)%nat -> i ∈ sched) ->
  fst (candidate_outcomes E cache fn ds sched w) = Some <$> (out <$> ds).
Proof.
  intros Hout Hcover. unfold candidate_outcomes.
  destruct (all_settle sched _ (replicate (length ds) None) None w)
    as [[slots rej] w'] eqn:Hrun.
  simpl.
  pose proof (all_settle_length _ _ _ _ _ _ _ _ Hrun) as Hlen.
  rewrite length_replicate in Hlen.
  assert (forall i p w0,
             ((fun d => fn (contentPath E cache d) d) <$> ds) !! i = Some p ->
             exists o, (out <$> ds) !! i = Some o /\ fst (p w0) = o /\ o <> Pending)
    as Houts.
  { intros i p w0 Hp. rewrite list_lookup_fmap in Hp.
    destruct (ds !! i) as [d|] eqn:Hd; [|discriminate]. injection Hp as <-.
    exists (out d). rewrite list_lookup_fmap, Hd.
    destruct (Hout d w0) as [Hfst Hnp]; [apply list_elem_of_lookup; eauto|].
    repeat split; assumption. }
  destruct (all_settle_fills _ (out <$> ds) Houts _ _ _ _ _ _ _ Hrun) as [Hinv Hfill].
  { intros i o Hi. apply lookup_replicate in Hi as [Hi _]. discriminate. }
  apply list_eq. intros i.
  destruct (decide (i < length ds)%nat) as [Hlt|Hge].
  - destruct (Hfill i) as [o Ho].
    + apply Hcover, Hlt.
    + rewrite length_fmap. exact Hlt.
    + rewrite length_replicate. exact Hlt.
    + rewrite Ho, list_lookup_fmap, (Hinv i o Ho). reflexivity.
  - rewrite !lookup_ge_None_2; [reflexivity| |]; rewrite ?length_fmap; lia.
Qed.

Hypothesis law : entry_law E.

Variables (fuel : nat) (cache : string) (integrity : sri_input)
  (fn : string -> Hash -> Promise World value)
  (sri : Integrity) (algo : string) (ds : list Hash).

Hypothesis parsed : parse E integrity = Return sri.
Hypothesis picked : pickAlgorithm E sri = Return algo.
Hypothesis listed : sri_get sri algo = Some ds.
Hypothesis several : (1 < length ds)%nat.

(** X3. Non-blocking resolver, several candidates, an access function whose
    outcome for a candidate does not depend on when it runs (fulfilled, or
    rejected with an error): the promise settles in the same way for any two
    orders in which all the candidates settle. *)
Theorem withContentSri_order_irrelevant (out : Hash -> Settled value)
    (sched1 sched2 : list nat) :
  (forall d w, d ∈ ds -> fst (fn (contentPath E cache d) d w) = out d) ->
  (forall d, d ∈ ds ->
     (exists v, out d = Fulfilled v) \/ (exists err, out d = Rejected (VError err))) ->
  (forall i, (i < length ds)%nat -> i ∈ sched1) ->
  (forall i, (i < length ds)%nat -> i ∈ sched2) ->
  exists p1 p2,
    withContentSri E (S (S fuel)) cache integrity fn sched1 = Some p1 /\
    withContentSri E (S (S fuel)) cache integrity fn sched2 = Some p2 /\
    forall w1 w2, fst (p1 w1) = fst (p2 w2) /\ fst (p1 w1) <> Pending.
Proof.
  intros Hout Hkind Hc1 Hc2.
  assert (forall sched w,
             (forall i, (i < length ds)%nat -> i ∈ sched) ->
             exists p,
               withContentSri E (S (S fuel)) cache integrity fn sched = Some p /\
               exists results,
                 fulfilled_values
                   (fmap (M:=list) (fmap (M:=option) (guarded_outcome E sri))
                      (Some <$> (out <$> ds))) = Some results /\
                 fst (p w) = settled_of (pick_result results)) as Hrun.
  { intros sched w Hc.
    destruct (candidate_outcomes E cache fn ds sched w) as [slots w'] eqn:Hco.
    assert (slots = Some <$> (out <$> ds)) as ->.
    { change slots with (fst (slots, w')). rewrite <- Hco.
      apply candidate_outcomes_full; [|exact Hc].
      intros d w0 Hd. split; [apply Hout, Hd|].
      destruct (Hkind d Hd) as [[v ->]|[err ->]]; discriminate. }
    assert (forall j o, (Some <$> (out <$> ds)) !! j = Some (Some o) ->
              (exists v, o = Fulfilled v) \/ (exists err, o = Rejected (VError err)))
      as Hslots.
    { intros j o Hj. rewrite !list_lookup_fmap in Hj.
      destruct (ds !! j) as [d|] eqn:Hd; [|discriminate]. injection Hj as <-.
      apply Hkind, list_elem_of_lookup. eauto. }
    destruct (withContentSri_multi_run E law fuel cache integrity fn sched sri algo ds
                parsed picked listed several w w' _ Hco) as (p & Hp & Hpw).
    { intros j o t Hj Ho. destruct (Hslots j o Hj) as [[v ->]|[err ->]].
      - discriminate.
      - rewrite guarded_outcome_error in Ho. discriminate. }
    exists p. split; [exact Hp|].
    assert (exists results,
               fulfilled_values
                 (fmap (M:=list) (fmap (M:=option) (guarded_outcome E sri))
                    (Some <$> (out <$> ds))) = Some results) as [results Hres].
    { clear Hco Hpw.
      assert (Forall (fun d => exists x, guarded_outcome E sri (out d) = Fulfilled x) ds)
        as Hall.
      { apply Forall_forall. intros d Hd.
        destruct (Hkind d Hd) as [[v ->]|[err ->]]; [eexists; reflexivity|].
        rewrite guarded_outcome_error. eexists; reflexivity. }
      clear -Hall. induction Hall as [|d l [x Hx] _ [results IH]].
      - exists []. reflexivity.
      - exists (x :: results). cbn [fmap list_fmap option_fmap option_map] in *.
        rewrite Hx. cbn [fulfilled_values]. rewrite IH. reflexivity. }
    exists results. split; [exact Hres|].
    rewrite Hpw, Hres. simpl. destruct (pick_result results); reflexivity. }
  destruct (withContentSri_total E law fuel cache integrity fn sched1) as [p1 Hp1].
  destruct (withContentSri_total E law fuel cache integrity fn sched2) as [p2 Hp2].
  exists p1, p2. split; [exact Hp1|]. split; [exact Hp2|].
  intros w1 w2.
  destruct (Hrun sched1 w1 Hc1) as (p1' & Hp1' & r1 & Hr1 & Hf1).
  destruct (Hrun sched2 w2 Hc2) as (p2' & Hp2' & r2 & Hr2 & Hf2).
  rewrite Hp1 in Hp1'. injection Hp1' as <-.
  rewrite Hp2 in Hp2'. injection Hp2' as <-.
  rewrite Hr1 in Hr2. injection Hr2 as <-.
  split; [congruence|].
  rewrite Hf1. destruct (pick_result r1); discriminate.
Qed.

End Timing.

(** ** Existence check on several candidates *)

Section ExistenceSeveral.

Context {World : Type} (E : Env World).
Hypothesis law : entry_law E.

(** A slot that has been settled does not hold a pending outcome. *)
Lemma all_settle_not_pending {A} (sched : list nat) (ps : list (Promise World A)) :
  forall slots rej (w : World) slots' rej' w' j,
    all_settle sched ps slots rej w = (slots', rej', w') ->
    slots' !! j = Some (Some Pending) ->
    slots !! j = Some (Some Pending).
Proof.
  induction sched as [|i sched IH]; intros slots rej w slots' rej' w' j H Hj;
    simpl in H.
  - injection H as <- _ _. exact Hj.
  - destruct (ps !! i) as [p|]; [|eauto].
    destruct (slots !! i) as [[o'|]|] eqn:Hi; [eauto| |eauto].
    destruct (p w) as [[a|e|] w1]; [| |eauto].
    + specialize (IH _ _ _ _ _ _ j H Hj).
      apply list_lookup_insert_Some in IH as [(_ & Heq & _)|(_ & IH)];
        [discriminate | exact IH].
    + specialize (IH _ _ _ _ _ _ j H Hj).
      apply list_lookup_insert_Some in IH as [(_ & Heq & _)|(_ & IH)];
        [discriminate | exact IH].
Qed.

Lemma candidate_outcomes_not_pending cache (fn : string -> Hash -> Promise World value)
    ds sched (w w' : World) slots j :
  candidate_outcomes E cache fn ds sched w = (slots, w') ->
  slots !! j <> Some (Some Pending).
Proof.
  unfold candidate_outcomes.
  destruct (all_settle sched _ (replicate (length ds) None) None w)
    as [[slots0 rej0] w0] eqn:Hrun.
  intros H Hj. injection H as -> _.
  apply (all_settle_not_pending _ _ _ _ _ _ _ _ j Hrun) in Hj.
  apply lookup_replicate in Hj as [Hj _]. discriminate.
Qed.

(** The callback of [hasContent] settles as the stat does; fulfilled, it
    carries the size, the entry and the stat. *)
Lemma hasContent_fn_outcome cpath d (w w' : World) o :
  hasContent_fn E cpath d w = (o, w') ->
  match o with
  | Fulfilled v => exists st, lstat E cpath w = (Fulfilled st, w') /\ v = content_info d st
  | Rejected e => lstat E cpath w = (Rejected e, w')
  | Pending => lstat E cpath w = (Pending, w')
  end.
Proof.
  unfold hasContent_fn, then_, resolve.
  destruct (lstat E cpath w) as [[st|e|] w1]; intros H; injection H as <- <-.
  - exists st. split; reflexivity.
  - reflexivity.
  - reflexivity.
Qed.

Variables (fuel : nat) (cache : string) (integrity : sri_input) (sched : list nat)
  (sri : Integrity) (algo : string) (ds : list Hash).

Hypothesis present : falsy_input integrity = false.
Hypothesis parsed : parse E integrity = Return sri.
Hypothesis picked : pickAlgorithm E sri = Return algo.
Hypothesis listed : sri_get sri algo = Some ds.
Hypothesis several : (1 < length ds)%nat.

(** All the candidates rejected: the rejection of the resolver. *)
Lemma withContentSri_failures_run (fn : string -> Hash -> Promise World value)
    (w w' : World) (errs : list Error) :
  candidate_outcomes E cache fn ds sched w
    = ((fun e => Some (Rejected (VError e))) <$> errs, w') ->
  exists p e,
    withContentSri E (S (S fuel)) cache integrity fn sched = Some p /\
    p w = (Rejected (VError e), w') /\
    (existsb (has_code "ENOENT") errs = true -> e = no_match_error E sri) /\
    (existsb (has_code "ENOENT") errs = false -> head errs = Some e).
Proof.
  intros Hout.
  destruct (withContentSri_multi_run E law fuel cache integrity fn sched sri algo ds
              parsed picked listed several w w' _ Hout) as (p & Hp & Hrun).
  - intros j o t Hj Ho. rewrite list_lookup_fmap in Hj.
    destruct (errs !! j); [|discriminate]. injection Hj as <-.
    rewrite guarded_outcome_error in Ho. discriminate.
  - rewrite fulfilled_values_errors, pick_result_errors, find_aggregated in Hrun.
    destruct (existsb (has_code "ENOENT") errs) eqn:Hex.
    + exists p, (no_match_error E sri). repeat split; [exact Hp | exact Hrun | discriminate].
    + rewrite (aggregated_none E sri errs Hex) in Hrun.
      pose proof (candidate_outcomes_length E cache fn sched ds w w' _ Hout) as Hlen.
      rewrite length_fmap in Hlen.
      destruct errs as [|e rest]; [simpl in Hlen; lia|].
      exists p, e. repeat split; [exact Hp | exact Hrun | discriminate].
Qed.

(** X4. [hasContent], several candidates, a filesystem whose stat fails with
    error objects.  When the stat fails for the first candidates and succeeds
    for the next one, the promise is fulfilled with the size, the entry and
    the stat of that candidate, whatever the later candidates did and in
    whatever order all of them settled. *)
Theorem hasContent_reports_earliest_present (w w' : World)
    (pre : list Error) (info : value) (post : list (Settled value)) :
  (forall path w0 e w1, lstat E path w0 = (Rejected e, w1) -> exists err, e = VError err) ->
  candidate_outcomes E cache (hasContent_fn E) ds sched w
    = (Some <$> (((fun e => Rejected (VError e)) <$> pre) ++ Fulfilled info :: post)%list, w') ->
  exists q d st,
    hasContent E (S (S fuel)) cache integrity sched = Some q /\
    q w = (Fulfilled info, w') /\
    ds !! length pre = Some d /\
    info = content_info d st.
Proof.
  intros Hfs Hout.
  assert (forall j o,
             (Some <$> (((fun e => Rejected (VError e)) <$> pre)
                          ++ Fulfilled info :: post)%list) !! j = Some (Some o) ->
             exists d w1 w2, ds !! j = Some d /\
               hasContent_fn E (contentPath E cache d) d w1 = (o, w2)) as Horigin.
  { intros j o Hj.
    exact (candidate_outcomes_origin E cache (hasContent_fn E) ds sched w w' _ j o Hout Hj). }
  assert (exists d st, ds !! length pre = Some d /\ info = content_info d st)
    as (d & st & Hd & Hinfo).
  { destruct (Horigin (length pre) (Fulfilled info)) as (d & w1 & w2 & Hd & Hfn).
    - rewrite list_lookup_fmap, lookup_app_r by (rewrite length_fmap; lia).
      rewrite length_fmap, Nat.sub_diag. reflexivity.
    - apply hasContent_fn_outcome in Hfn as (st & _ & ->). exists d, st.
      split; [exact Hd | reflexivity]. }
  assert (Forall (fun o => exists x, guarded_outcome E sri o = Fulfilled x) post) as Hpost.
  { apply Forall_lookup. intros k o Hk.
    assert ((Some <$> (((fun e => Rejected (VError e)) <$> pre)
                         ++ Fulfilled info :: post)%list) !! (length pre + S k)%nat
            = Some (Some o)) as Hj.
    { rewrite list_lookup_fmap, lookup_app_r by (rewrite length_fmap; lia).
      rewrite length_fmap.
      replace (length pre + S k - length pre)%nat with (S k) by lia.
      simpl. rewrite Hk. reflexivity. }
    destruct (Horigin _ o Hj) as (d0 & w1 & w2 & _ & Hfn).
    apply hasContent_fn_outcome in Hfn.
    destruct o as [v|e|].
    - eexists; reflexivity.
    - destruct (Hfs _ _ _ _ Hfn) as [err ->]. rewrite guarded_outcome_error.
      eexists; reflexivity.
    - exfalso.
      exact (candidate_outcomes_not_pending cache (hasContent_fn E) ds sched w w' _ _
               Hout Hj). }
  destruct (withContentSri_first_truthy_success E law fuel cache integrity
              (hasContent_fn E) sched sri algo ds parsed picked listed several
              w w' pre info post Hout Hpost) as (p & Hp & Hrun).
  { rewrite Hinfo. reflexivity. }
  { rewrite Hinfo. reflexivity. }
  unfold hasContent. rewrite present, Hp.
  eexists _, d, st. split; [reflexivity|].
  split; [|split; [exact Hd | exact Hinfo]].
  unfold catch_. rewrite Hrun. reflexivity.
Qed.

(** X5. [hasContent], several candidates, every stat failed: as soon as one
    of the failures has code [ENOENT] the promise is fulfilled with [false],
    whatever the codes of the other failures and on every platform (an
    [EPERM] among them is not raised again); without an [ENOENT] the first
    failure alone decides, through the handler. *)
Theorem hasContent_all_failed (w w' : World) (errs : list Error) :
  candidate_outcomes E cache (hasContent_fn E) ds sched w
    = ((fun e => Some (Rejected (VError e))) <$> errs, w') ->
  exists q,
    hasContent E (S (S fuel)) cache integrity sched = Some q /\
    (existsb (has_code "ENOENT") errs = true -> q w = (Fulfilled (VBool false), w')) /\
    (existsb (has_code "ENOENT") errs = false ->
       exists e rest,
         errs = e :: rest /\
         q w = (if has_code "EPERM" e then
                  if String.eqb (platform E) "win32" then Fulfilled (VBool false)
                  else Rejected (VError e)
                else Fulfilled VUndefined, w')).
Proof.
  intros Hout.
  destruct (withContentSri_failures_run (hasContent_fn E) w w' errs Hout)
    as (p & e & Hp & Hrun & Henoent & Hother).
  destruct (hasContent_on_failure E (S (S fuel)) cache integrity sched p e w w'
              present Hp Hrun) as (q & Hq & Hqw).
  exists q. split; [exact Hq|]. rewrite hasContent_handler_cases in Hqw. split.
  - intros Hex. rewrite (Henoent Hex) in Hqw. exact Hqw.
  - intros Hex. specialize (Hother Hex).
    destruct errs as [|e0 rest]; [discriminate|]. injection Hother as ->.
    exists e, rest. split; [reflexivity|].
    simpl in Hex. apply orb_false_iff in Hex as [He _]. rewrite He in Hqw.
    rewrite Hqw. simpl.
    destruct (has_code "EPERM" e); [|reflexivity].
    destruct (String.eqb (platform E) "win32"); reflexivity.
Qed.

(** X6. [hasContentSync], several candidates: the first candidate decides as
    soon as its stat succeeds or fails with [ENOENT].  The result is the size,
    the entry and the stat of the first candidate, or [false]; the world is
    the one its stat left: the other candidates are not looked at, even when
    their content is there. *)
Theorem hasContentSync_first_candidate_decides :
  exists run d,
    hasContentSync E (S (S fuel)) cache integrity = Some run /\
    head ds = Some d /\
    (forall w st w1,
        lstatSync E (contentPath E cache d) w = (Return st, w1) ->
        run w = (Return (content_info d st), w1)) /\
    (forall w e w1,
        lstatSync E (contentPath E cache d) w = (Throw (VError e), w1) ->
        has_code "ENOENT" e = true ->
        run w = (Return (VBool false), w1)).
Proof.
  destruct ds as [|d rest] eqn:Hds; [simpl in several; lia|].
  eexists _, d. split.
  { unfold hasContentSync. rewrite present.
    eapply withContentSriSync_multi; try eassumption. }
  split; [reflexivity|]. split.
  - intros w st w1 Hstat. cbn [fmap list_fmap for_of_try].
    unfold hasContentSync_fn at 1. unfold try_catch, bind, ret. rewrite Hstat. reflexivity.
  - intros w e w1 Hstat He. cbn [fmap list_fmap for_of_try].
    unfold hasContentSync_fn at 1. unfold try_catch, bind. rewrite Hstat.
    rewrite hasContent_handler_cases, He. reflexivity.
Qed.

End ExistenceSeveral.

(** ** Failures before the access function *)

Section BeforeAccess.

Context {World : Type} (E : Env World).

Variables (integrity : sri_input) (err : value).
Hypothesis stopped : resolution_error E integrity = Some err.

Lemma withContentSri_stopped fuel cache (fn : string -> Hash -> Promise World value) sched :
  withContentSri E (S fuel) cache integrity fn sched = Some (reject err).
Proof.
  revert stopped. unfold resolution_error. rewrite withContentSri_unfold.
  destruct (parse E integrity) as [sri|e].
  2:{ intros H. injection H as <-. reflexivity. }
  destruct (pickAlgorithm E sri) as [algo|e].
  2:{ intros H. injection H as <-. reflexivity. }
  destruct (sri_get sri algo) as [[|d ds]|]; intros H; try discriminate;
    injection H as <-; reflexivity.
Qed.

Lemma withContentSriSync_stopped fuel cache (fn : string -> Hash -> Sync World value) :
  withContentSriSync E (S fuel) cache integrity fn = Some (throw err).
Proof.
  revert stopped. unfold resolution_error. rewrite withContentSriSync_unfold.
  destruct (parse E integrity) as [sri|e].
  2:{ intros H. injection H as <-. reflexivity. }
  destruct (pickAlgorithm E sri) as [algo|e].
  2:{ intros H. injection H as <-. reflexivity. }
  destruct (sri_get sri algo) as [[|d ds]|]; intros H; try discriminate;
    injection H as <-; reflexivity.
Qed.

(** X7. A descriptor that does not parse, that offers no algorithm, or whose
    picked algorithm has no entry, stops both resolvers before the access
    function is called, whatever that function is: the world is left as it
    was.  The non-blocking resolver does not throw: it hands back a promise
    rejected with the error; the blocking resolver throws that same error.
    So do [read] and [copy], and [readSync] and [copySync]. *)
Theorem resolution_stops_before_access fuel cache sched opts dest :
  (forall fn : string -> Hash -> Promise World value,
      exists p,
        withContentSri E (S fuel) cache integrity fn sched = Some p /\
        forall w, p w = (Rejected err, w)) /\
  (forall fn : string -> Hash -> Sync World value,
      exists run,
        withContentSriSync E (S fuel) cache integrity fn = Some run /\
        forall w, run w = (Throw err, w)) /\
  (exists p, read E (S fuel) cache integrity opts sched = Some p /\
             forall w, p w = (Rejected err, w)) /\
  (exists p, copy E (S fuel) cache integrity dest opts sched = Some p /\
             forall w, p w = (Rejected err, w)) /\
  (exists run, readSync E (S fuel) cache integrity opts = Some run /\
               forall w, run w = (Throw err, w)) /\
  (exists run, copySync E (S fuel) cache integrity dest opts = Some run /\
               forall w, run w = (Throw err, w)).
Proof.
  assert (forall fn : string -> Hash -> Promise World value,
             exists p,
               withContentSri E (S fuel) cache integrity fn sched = Some p /\
               forall w, p w = (Rejected err, w)) as Hasync.
  { intros fn. exists (reject err). split; [apply withContentSri_stopped|reflexivity]. }
  assert (forall fn : string -> Hash -> Sync World value,
             exists run,
               withContentSriSync E (S fuel) cache integrity fn = Some run /\
               forall w, run w = (Throw err, w)) as Hsync.
  { intros fn. exists (throw err). split; [apply withContentSriSync_stopped|reflexivity]. }
  split; [exact Hasync|]. split; [exact Hsync|].
  split; [apply Hasync|]. split; [apply Hasync|]. split; apply Hsync.
Qed.

(** X8. On such a descriptor, when it is not empty and the error is an
    [Error] object, the two forms of the existence check part ways:
    [hasContentSync] throws the error, whatever its code, while [hasContent]
    passes it through its handler, so that it is fulfilled with [false] for
    the code [ENOENT] and with [undefined] for a code other than [ENOENT]
    and [EPERM]. *)
Theorem hasContent_forms_differ_before_access (e : Error) fuel cache sched :
  err = VError e ->
  falsy_input integrity = false ->
  (exists run,
      hasContentSync E (S fuel) cache integrity = Some run /\
      forall w, run w = (Throw (VError e), w)) /\
  (exists q,
      hasContent E (S fuel) cache integrity sched = Some q /\
      forall w,
        q w = (if has_code "ENOENT" e then Fulfilled (VBool false)
               else if has_code "EPERM" e then
                      if String.eqb (platform E) "win32" then Fulfilled (VBool false)
                      else Rejected (VError e)
                    else Fulfilled VUndefined, w)).
Proof.
  intros Herr Hin. split.
  - exists (throw err). split; [|intros w; rewrite Herr; reflexivity].
    unfold hasContentSync. rewrite Hin. apply withContentSriSync_stopped.
  - eexists. split.
    + unfold hasContent. rewrite Hin, withContentSri_stopped. reflexivity.
    + intros w. unfold catch_, reject, settle. rewrite Herr, hasContent_handler_cases.
      destruct (has_code "ENOENT" e); [reflexivity|].
      destruct (has_code "EPERM" e); [|reflexivity].
      destruct (String.eqb (platform E) "win32"); reflexivity.
Qed.

End BeforeAccess.

(** ** One entry: the file behind it *)

Section SingleEntry.

Context {World : Type} (E : Env World).

Variables (fuel : nat) (cache : string) (integrity : sri_input) (sched : list nat)
  (opts : ReadOpts) (sri : Integrity) (algo : string) (d : Hash).

Hypothesis parsed : parse E integrity = Return sri.
Hypothesis picked : pickAlgorithm E sri = Return algo.
Hypothesis listed : sri_get sri algo = Some [d].

(** X9. [readStream] on a descriptor with one entry for the selected
    algorithm.  The chain stats the content path of the entry first.  When
    the stat fails the error goes to the stream and no pipeline is started.
    When it succeeds the pipeline is started on that path, with the entry as
    the digest to verify and the size option as it was given, whatever its
    type; a rejected pipeline goes to the stream, any other outcome is the
    outcome of the chain. *)
Theorem readStream_single_entry_path :
  exists resolved start,
    readStream E (S fuel) cache integrity opts sched = Some start /\
    forall w, exists s w0,
      new_PassThrough E w = (s, w0) /\
      start w = (Return (s, readStream_chain E opts s resolved), w0) /\
      forall w1,
        readStream_chain E opts s resolved w1
        = match lstat E (contentPath E cache d) w1 with
          | (Fulfilled st, w2) =>
              match pipe_verified E (VString (contentPath E cache d)) (VHash d)
                      (opts_size opts) s w2 with
              | (Rejected e, w3) =>
                  settle (bind (emit_error E s e) (fun _ => ret VUndefined)) w3
              | (o, w3) => (o, w3)
              end
          | (Rejected e, w2) =>
              settle (bind (emit_error E s e) (fun _ => ret VUndefined)) w2
          | (Pending, w2) => (Pending, w2)
          end.
Proof.
  eexists _, _. split.
  { unfold readStream.
    rewrite (withContentSri_single E fuel cache integrity (readStream_fn E) sched
               sri algo d parsed picked listed).
    reflexivity. }
  intros w. destruct (new_PassThrough E w) as [s w0] eqn:Hnew.
  exists s, w0. split; [reflexivity|]. split; [rewrite Hnew; reflexivity|].
  intros w1. unfold readStream_chain, catch_ at 1, then_ at 1.
  rewrite new_Promise_run. unfold readStream_fn, then_, resolve.
  destruct (lstat E (contentPath E cache d) w1) as [[st|e|] w2]; try reflexivity.
  simpl.
  destruct (pipe_verified E _ _ _ s w2) as [[v|e|] w3]; reflexivity.
Qed.

(** X10. [read] and [readSync] on a descriptor with one entry for the
    selected algorithm, when the file cannot be read: the operation fails
    with the error of the filesystem itself, unchanged (there is no aggregate
    error with one entry), in the world the failed read left: neither the
    size check nor the digest check is run. *)
Theorem read_unreadable_single_entry :
  (exists p,
      read E (S fuel) cache integrity opts sched = Some p /\
      forall w e w1,
        readFile E (contentPath E cache d) w = (Rejected e, w1) ->
        p w = (Rejected e, w1)) /\
  (exists run,
      readSync E (S fuel) cache integrity opts = Some run /\
      forall w e w1,
        readFileSync E (contentPath E cache d) w = (Throw e, w1) ->
        run w = (Throw e, w1)).
Proof.
  split.
  - destruct (read_single E opts fuel cache integrity sched sri algo d parsed picked listed)
      as (p & Hp & Hrun).
    exists p. split; [exact Hp|]. intros w e w1 Hread.
    rewrite Hrun. unfold read_fn, then_. rewrite Hread. reflexivity.
  - eexists. split.
    + exact (readSync_single E opts fuel cache integrity sri algo d parsed picked listed).
    + intros w e w1 Hread. unfold readSync_fn, bind. rewrite Hread. reflexivity.
Qed.

End SingleEntry.

(** ** The earliest success, for the access functions of this module *)

Section EarliestSuccess.

Context {World : Type} (E : Env World).
Hypothesis law : entry_law E.

Variables (fuel : nat) (cache : string) (integrity : sri_input) (sched : list nat)
  (sri : Integrity) (algo : string) (ds : list Hash).

Hypothesis parsed : parse E integrity = Return sri.
Hypothesis picked : pickAlgorithm E sri = Return algo.
Hypothesis listed : sri_get sri algo = Some ds.
Hypothesis several : (1 < length ds)%nat.

(** What a well-behaved access function leaves in a settled slot. *)
Lemma well_behaved_settled (fn : string -> Hash -> Promise World value)
    (w w' : World) slots j o :
  well_behaved fn ->
  candidate_outcomes E cache fn ds sched w = (slots, w') ->
  slots !! j = Some (Some o) ->
  exists x, guarded_outcome E sri o = Fulfilled x.
Proof.
  intros Hfn Hout Hj.
  destruct (candidate_outcomes_origin E cache fn ds sched w w' slots j o Hout Hj)
    as (d & w1 & w2 & _ & Ho).
  specialize (Hfn (contentPath E cache d) d w1). rewrite Ho in Hfn. simpl in Hfn.
  destruct o as [v|e|].
  - eexists; reflexivity.
  - destruct Hfn as [err ->]. rewrite guarded_outcome_error. eexists; reflexivity.
  - exfalso. exact (candidate_outcomes_not_pending E cache fn ds sched w w' slots j Hout Hj).
Qed.

Lemma well_behaved_post (fn : string -> Hash -> Promise World value)
    (w w' : World) (pre : list Error) (v : value) (post : list (Settled value)) :
  well_behaved fn ->
  candidate_outcomes E cache fn ds sched w
    = (Some <$> (((fun e => Rejected (VError e)) <$> pre) ++ Fulfilled v :: post)%list, w') ->
  Forall (fun o => exists x, guarded_outcome E sri o = Fulfilled x) post.
Proof.
  intros Hfn Hout. apply Forall_lookup. intros k o Hk.
  eapply (well_behaved_settled fn w w' _ (length pre + S k)%nat o Hfn Hout).
  rewrite list_lookup_fmap, lookup_app_r by (rewrite length_fmap; lia).
  rewrite length_fmap.
  replace (length pre + S k - length pre)%nat with (S k) by lia.
  simpl. rewrite Hk. reflexivity.
Qed.

Lemma earliest_success_origin (fn : string -> Hash -> Promise World value)
    (w w' : World) (pre : list Error) (v : value) (post : list (Settled value)) :
  candidate_outcomes E cache fn ds sched w
    = (Some <$> (((fun e => Rejected (VError e)) <$> pre) ++ Fulfilled v :: post)%list, w') ->
  exists d w1 w2,
    ds !! length pre = Some d /\ fn (contentPath E cache d) d w1 = (Fulfilled v, w2).
Proof.
  intros Hout.
  apply (candidate_outcomes_origin E cache fn ds sched w w' _ (length pre) (Fulfilled v) Hout).
  rewrite list_lookup_fmap, lookup_app_r by (rewrite length_fmap; lia).
  rewrite length_fmap, Nat.sub_diag. reflexivity.
Qed.

(** X11. Non-blocking resolver, several candidates, an access function that
    fulfils with truthy values that are not errors and rejects with errors
    (those of [read], [readStream] and [hasContent]; not the one of [copy]).
    Once every candidate has settled, in whatever order, the promise is
    fulfilled with the success of the earliest candidate that succeeded,
    whatever the candidates after it did. *)
Theorem withContentSri_earliest_success (fn : string -> Hash -> Promise World value)
    (w w' : World) (pre : list Error) (v : value) (post : list (Settled value)) :
  well_behaved fn ->
  candidate_outcomes E cache fn ds sched w
    = (Some <$> (((fun e => Rejected (VError e)) <$> pre) ++ Fulfilled v :: post)%list, w') ->
  exists p d w1 w2,
    withContentSri E (S (S fuel)) cache integrity fn sched = Some p /\
    p w = (Fulfilled v, w') /\
    ds !! length pre = Some d /\
    fn (contentPath E cache d) d w1 = (Fulfilled v, w2).
Proof.
  intros Hfn Hout.
  destruct (earliest_success_origin fn w w' pre v post Hout) as (d & w1 & w2 & Hd & Hv).
  pose proof (Hfn (contentPath E cache d) d w1) as Hkind. rewrite Hv in Hkind.
  destruct Hkind as [Hne Ht].
  destruct (withContentSri_first_truthy_success E law fuel cache integrity fn sched
              sri algo ds parsed picked listed several w w' pre v post Hout
              (well_behaved_post fn w w' pre v post Hfn Hout) Hne Ht) as (p & Hp & Hrun).
  exists p, d, w1, w2. repeat split; assumption.
Qed.

Lemma readStream_fn_well_behaved :
  (forall path w0 e w1, lstat E path w0 = (Rejected e, w1) -> exists err, e = VError err) ->
  well_behaved (readStream_fn E).
Proof.
  intros Hfs cpath d w. unfold readStream_fn, then_, resolve.
  destruct (lstat E cpath w) as [[st|e|] w1] eqn:Hstat; simpl.
  - split; reflexivity.
  - exact (Hfs cpath w e w1 Hstat).
  - exact I.
Qed.

(** X12. [readStream], several candidates, a filesystem whose stat fails
    with error objects.  When the stat fails for the first candidates and
    succeeds for the next one, the pipeline is started on the content path of
    that candidate, with its entry as the digest to verify and the size
    option as it was given; a rejected pipeline goes to the stream. *)
Theorem readStream_pipes_earliest_present (opts : ReadOpts) (w1 w2 : World)
    (pre : list Error) (r : value) (post : list (Settled value)) :
  (forall path w0 e w3, lstat E path w0 = (Rejected e, w3) -> exists err, e = VError err) ->
  candidate_outcomes E cache (readStream_fn E) ds sched w1
    = (Some <$> (((fun e => Rejected (VError e)) <$> pre) ++ Fulfilled r :: post)%list, w2) ->
  exists resolved start d,
    readStream E (S (S fuel)) cache integrity opts sched = Some start /\
    ds !! length pre = Some d /\
    forall w, exists s w0,
      new_PassThrough E w = (s, w0) /\
      start w = (Return (s, readStream_chain E opts s resolved), w0) /\
      readStream_chain E opts s resolved w1
      = match pipe_verified E (VString (contentPath E cache d)) (VHash d)
                (opts_size opts) s w2 with
        | (Rejected e, w3) =>
            settle (bind (emit_error E s e) (fun _ => ret VUndefined)) w3
        | (o, w3) => (o, w3)
        end.
Proof.
  intros Hfs Hout.
  pose proof (readStream_fn_well_behaved Hfs) as Hfn.
  destruct (earliest_success_origin (readStream_fn E) w1 w2 pre r post Hout)
    as (d & wa & wb & Hd & Hr).
  assert (exists st,
             r = VObject [("cpath", VString (contentPath E cache d)); ("sri", VHash d);
                          ("stat", VStat st)]) as [st Hshape].
  { revert Hr. unfold readStream_fn, then_, resolve.
    destruct (lstat E (contentPath E cache d) wa) as [[st|e|] wc]; try discriminate.
    intros H. injection H as <- _. exists st. reflexivity. }
  pose proof (Hfn (contentPath E cache d) d wa) as Hkind. rewrite Hr in Hkind.
  destruct Hkind as [Hne Ht].
  destruct (withContentSri_first_truthy_success E law fuel cache integrity
              (readStream_fn E) sched sri algo ds parsed picked listed several
              w1 w2 pre r post Hout
              (well_behaved_post (readStream_fn E) w1 w2 pre r post Hfn Hout) Hne Ht)
    as (resolved & Hres & Hrun).
  exists resolved. eexists. exists d. split.
  { unfold readStream. rewrite Hres. reflexivity. }
  split; [exact Hd|].
  intros w. destruct (new_PassThrough E w) as [s w0] eqn:Hnew.
  exists s, w0. split; [reflexivity|]. split; [try rewrite Hnew; reflexivity|].
  unfold readStream_chain, catch_, then_. rewrite Hrun, Hshape. simpl.
  destruct (pipe_verified E _ _ _ s w2) as [[v|e|] w3]; reflexivity.
Qed.

End EarliestSuccess.

(** ** The further properties at concrete inputs *)

Lemma toy_access_throws_errors (fs : Toy.Fs) (path : string) (e : value) :
  Toy.access fs path = Throw e -> exists err, e = VError err.
Proof.
  unfold Toy.access. destruct (Toy.fs_get fs path) as [[data|c]|]; intros H;
    try discriminate; injection H as <-; eexists; reflexivity.
Defined.

Lemma toy_readFile_rejects_errors (plat : string) (fs : Toy.Fs) (b : bool) :
  forall path w e w1,
    readFile (Toy.env plat fs b) path w = (Rejected e, w1) -> exists err, e = VError err.
Proof.
  intros path w e w1. simpl. unfold Toy.promise_of.
  destruct (Toy.access fs path) as [data|x] eqn:Ha; intros H; [discriminate|].
  injection H as <- _. exact (toy_access_throws_errors fs path x Ha).
Defined.

Lemma toy_readFileSync_throws_errors (plat : string) (fs : Toy.Fs) (b : bool) :
  forall path w e w1,
    readFileSync (Toy.env plat fs b) path w = (Throw e, w1) -> exists err, e = VError err.
Proof.
  intros path w e w1. simpl. unfold Toy.sync_of.
  destruct (Toy.access fs path) as [data|x] eqn:Ha; intros H; [discriminate|].
  injection H as <- _. exact (toy_access_throws_errors fs path x Ha).
Defined.

Lemma toy_lstat_rejects_errors (plat : string) (fs : Toy.Fs) (b : bool) :
  forall path w e w1,
    lstat (Toy.env plat fs b) path w = (Rejected e, w1) -> exists err, e = VError err.
Proof.
  intros path w e w1. simpl. unfold Toy.promise_of.
  destruct (Toy.access fs path) as [data|x] eqn:Ha; intros H; [discriminate|].
  injection H as <- _. exact (toy_access_throws_errors fs path x Ha).
Defined.

Lemma resolver_result_origin_witness :
  exists sri algo ds d w1 w2,
    parse (Toy.linux Toy.fs_second) Toy.two = Return sri /\
    pickAlgorithm (Toy.linux Toy.fs_second) sri = Return algo /\
    sri_get sri algo = Some ds /\
    d ∈ ds /\
    read_fn (Toy.linux Toy.fs_second) Toy.no_size
      (contentPath (Toy.linux Toy.fs_second) "c" d) d w1
    = (Fulfilled (VBuffer Toy.bytes_cd), w2).
Proof.
  destruct (resolver_result_origin (Toy.linux Toy.fs_second)
              (toy_entry_law "linux" Toy.fs_second true) 0 "c" Toy.two
              (read_fn (Toy.linux Toy.fs_second) Toy.no_size)
              (readSync_fn (Toy.linux Toy.fs_second) Toy.no_size) [1; 0]%nat
              (read_fn_well_behaved _ _ (toy_readFile_rejects_errors _ _ _))
              (readSync_fn_throws_errors _ _ (toy_readFileSync_throws_errors _ _ _)))
    as [Hasync _].
  eapply (Hasync _ [] _ (VBuffer Toy.bytes_cd)); reflexivity.
Defined.

Lemma read_returns_verified_bytes_witness :
  exists sri algo ds d data w1 w2 w3,
    parse (Toy.linux Toy.fs_second) Toy.two = Return sri /\
    pickAlgorithm (Toy.linux Toy.fs_second) sri = Return algo /\
    sri_get sri algo = Some ds /\
    d ∈ ds /\
    readFileSync (Toy.linux Toy.fs_second)
      (contentPath (Toy.linux Toy.fs_second) "c" d) w1 = (Return data, w2) /\
    size_differs (opts_size (mkReadOpts (VNumber 2))) data = false /\
    checkData (Toy.linux Toy.fs_second) data d w2 = (true, w3) /\
    VBuffer Toy.bytes_cd = VBuffer data.
Proof.
  destruct (read_returns_verified_bytes (Toy.linux Toy.fs_second)
              (toy_entry_law "linux" Toy.fs_second true) (mkReadOpts (VNumber 2))
              0 "c" Toy.two []
              (toy_readFile_rejects_errors _ _ _)
              (toy_readFileSync_throws_errors _ _ _))
    as [_ Hsync].
  eapply (Hsync _ [] _ (VBuffer Toy.bytes_cd)); reflexivity.
Defined.

Lemma withContentSri_order_irrelevant_witness :
  exists p1 p2,
    withContentSri (Toy.linux Toy.fs_second) 2 "c" Toy.two
      (read_fn (Toy.linux Toy.fs_second) Toy.no_size) [0; 1]%nat = Some p1 /\
    withContentSri (Toy.linux Toy.fs_second) 2 "c" Toy.two
      (read_fn (Toy.linux Toy.fs_second) Toy.no_size) [1; 0]%nat = Some p2 /\
    forall w1 w2, fst (p1 w1) = fst (p2 w2) /\ fst (p1 w1) <> Pending.
Proof.
  apply (withContentSri_order_irrelevant (Toy.linux Toy.fs_second)
           (toy_entry_law "linux" Toy.fs_second true) 0 "c" Toy.two
           (read_fn (Toy.linux Toy.fs_second) Toy.no_size)
           Toy.both "sha1" [Toy.h1; Toy.h2] eq_refl eq_refl eq_refl (le_n 2)
           (fun d => fst (read_fn (Toy.linux Toy.fs_second) Toy.no_size
                            (contentPath (Toy.linux Toy.fs_second) "c" d) d []))).
  - intros d w Hd.
    apply elem_of_cons in Hd as [->|Hd]; [reflexivity|].
    apply elem_of_cons in Hd as [->|Hd]; [reflexivity|].
    inversion Hd.
  - intros d Hd.
    apply elem_of_cons in Hd as [->|Hd]; [right; eexists; reflexivity|].
    apply elem_of_cons in Hd as [->|Hd]; [left; eexists; reflexivity|].
    inversion Hd.
  - intros [|[|i]] Hi; [repeat constructor | repeat constructor | simpl in Hi; lia].
  - intros [|[|i]] Hi; [repeat constructor | repeat constructor | simpl in Hi; lia].
Defined.

Lemma hasContent_reports_earliest_present_witness :
  exists q d st,
    hasContent (Toy.linux Toy.fs_second) 2 "c" Toy.two [1; 0]%nat = Some q /\
    q [] = (Fulfilled (content_info Toy.h2 (mkStats 2)),
            [Toy.EvLstat "c/sha1/cd"; Toy.EvLstat "c/sha1/ab"]) /\
    [Toy.h1; Toy.h2] !! 1%nat = Some d /\
    content_info Toy.h2 (mkStats 2) = content_info d st.
Proof.
  apply (hasContent_reports_earliest_present (Toy.linux Toy.fs_second)
           (toy_entry_law "linux" Toy.fs_second true) 0 "c" Toy.two [1; 0]%nat
           Toy.both "sha1" [Toy.h1; Toy.h2] eq_refl eq_refl eq_refl eq_refl (le_n 2)
           [] [Toy.EvLstat "c/sha1/cd"; Toy.EvLstat "c/sha1/ab"]
           [Toy.fs_err "ENOENT" "c/sha1/ab"] (content_info Toy.h2 (mkStats 2)) []
           (toy_lstat_rejects_errors _ _ _)).
  reflexivity.
Defined.

Lemma hasContent_all_failed_witness :
  exists q,
    hasContent (Toy.linux (Toy.fs_denied "EPERM")) 2 "c" Toy.two [0; 1]%nat = Some q /\
    q [] = (Fulfilled (VBool false), [Toy.EvLstat "c/sha1/ab"; Toy.EvLstat "c/sha1/cd"]).
Proof.
  destruct (hasContent_all_failed (Toy.linux (Toy.fs_denied "EPERM"))
              (toy_entry_law "linux" (Toy.fs_denied "EPERM") true) 0 "c" Toy.two
              [0; 1]%nat Toy.both "sha1" [Toy.h1; Toy.h2]
              eq_refl eq_refl eq_refl eq_refl (le_n 2)
              [] [Toy.EvLstat "c/sha1/ab"; Toy.EvLstat "c/sha1/cd"]
              [Toy.fs_err "EPERM" "c/sha1/ab"; Toy.fs_err "ENOENT" "c/sha1/cd"] eq_refl)
    as (q & Hq & Henoent & _).
  exists q. split; [exact Hq|]. apply Henoent. reflexivity.
Defined.

Lemma hasContentSync_first_candidate_decides_witness :
  exists run,
    hasContentSync (Toy.linux Toy.fs_second) 2 "c" Toy.two = Some run /\
    run [] = (Return (VBool false), [Toy.EvLstat "c/sha1/ab"]).
Proof.
  destruct (hasContentSync_first_candidate_decides (Toy.linux Toy.fs_second)
              (toy_entry_law "linux" Toy.fs_second true) 0 "c" Toy.two
              Toy.both "sha1" [Toy.h1; Toy.h2] eq_refl eq_refl eq_refl eq_refl (le_n 2))
    as (run & d & Hrun & Hhead & _ & Hmissing).
  exists run. split; [exact Hrun|].
  injection Hhead as <-.
  apply (Hmissing [] (Toy.fs_err "ENOENT" "c/sha1/ab") [Toy.EvLstat "c/sha1/ab"]);
    reflexivity.
Defined.

Lemma resolution_stops_before_access_witness :
  exists p,
    read (Toy.linux Toy.fs_both) 1 "c" SriAbsent Toy.no_size [] = Some p /\
    forall w, p w = (Rejected (TypeError "Cannot read property 'algorithm' of undefined"), w).
Proof.
  exact (proj1 (proj2 (proj2 (resolution_stops_before_access (Toy.linux Toy.fs_both)
                                SriAbsent
                                (TypeError "Cannot read property 'algorithm' of undefined")
                                eq_refl 0 "c" [] Toy.no_size "dst")))).
Defined.

Lemma hasContent_forms_differ_before_access_witness :
  (exists run,
      hasContentSync (Toy.linux Toy.fs_both) 1 "c" (SriIntegrity []) = Some run /\
      forall w, run w = (Throw (VError (new_Error "No algorithms available")), w)) /\
  (exists q,
      hasContent (Toy.linux Toy.fs_both) 1 "c" (SriIntegrity []) [] = Some q /\
      forall w, q w = (Fulfilled VUndefined, w)).
Proof.
  exact (hasContent_forms_differ_before_access (Toy.linux Toy.fs_both)
           (SriIntegrity []) (VError (new_Error "No algorithms available")) eq_refl
           (new_Error "No algorithms available") 0 "c" [] eq_refl eq_refl).
Defined.

Lemma readStream_single_entry_path_witness :
  exists resolved start,
    readStream (Toy.linux Toy.fs_first) 1 "c" Toy.one (mkReadOpts (VString "2")) [] = Some start /\
    start [] = (Return (0%nat, readStream_chain (Toy.linux Toy.fs_first)
                                 (mkReadOpts (VString "2")) 0%nat resolved),
                [Toy.EvNewStream 0%nat]) /\
    readStream_chain (Toy.linux Toy.fs_first) (mkReadOpts (VString "2")) 0%nat resolved
      [Toy.EvNewStream 0%nat]
    = (Fulfilled VUndefined,
       [Toy.EvNewStream 0%nat; Toy.EvLstat "c/sha1/ab";
        Toy.EvPipe (VString "c/sha1/ab") (VHash Toy.h1) (VString "2") 0%nat]).
Proof.
  destruct (readStream_single_entry_path (Toy.linux Toy.fs_first) 0 "c" Toy.one []
              (mkReadOpts (VString "2")) [("sha1", [Toy.h1])] "sha1" Toy.h1
              eq_refl eq_refl eq_refl)
    as (resolved & start & Hstart & Hrun).
  exists resolved, start. split; [exact Hstart|].
  destruct (Hrun []) as (s & w0 & Hnew & Hret & Hchain).
  injection Hnew as <- <-.
  split; [exact Hret|]. rewrite Hchain. reflexivity.
Defined.

Lemma read_unreadable_single_entry_witness :
  exists p,
    read (Toy.linux Toy.fs_none) 1 "c" Toy.one Toy.no_size [] = Some p /\
    p [] = (Rejected (Toy.fs_error "ENOENT" "c/sha1/ab"), [Toy.EvReadFile "c/sha1/ab"]).
Proof.
  destruct (read_unreadable_single_entry (Toy.linux Toy.fs_none) 0 "c" Toy.one []
              Toy.no_size [("sha1", [Toy.h1])] "sha1" Toy.h1 eq_refl eq_refl eq_refl)
    as [(p & Hp & Hrun) _].
  exists p. split; [exact Hp|]. apply Hrun. reflexivity.
Defined.

Lemma withContentSri_earliest_success_witness :
  exists p d w1 w2,
    withContentSri (Toy.linux Toy.fs_second) 2 "c" Toy.two
      (read_fn (Toy.linux Toy.fs_second) Toy.no_size) [1; 0]%nat = Some p /\
    p [] = (Fulfilled (VBuffer Toy.bytes_cd),
            [Toy.EvReadFile "c/sha1/cd"; Toy.EvCheckData Toy.h2;
             Toy.EvReadFile "c/sha1/ab"]) /\
    [Toy.h1; Toy.h2] !! 1%nat = Some d /\
    read_fn (Toy.linux Toy.fs_second) Toy.no_size
      (contentPath (Toy.linux Toy.fs_second) "c" d) d w1
    = (Fulfilled (VBuffer Toy.bytes_cd), w2).
Proof.
  apply (withContentSri_earliest_success (Toy.linux Toy.fs_second)
           (toy_entry_law "linux" Toy.fs_second true) 0 "c" Toy.two [1; 0]%nat
           Toy.both "sha1" [Toy.h1; Toy.h2] eq_refl eq_refl eq_refl (le_n 2)
           (read_fn (Toy.linux Toy.fs_second) Toy.no_size)
           [] _ [Toy.fs_err "ENOENT" "c/sha1/ab"] (VBuffer Toy.bytes_cd) []
           (read_fn_well_behaved _ _ (toy_readFile_rejects_errors _ _ _))).
  reflexivity.
Defined.

Lemma readStream_pipes_earliest_present_witness :
  exists resolved start d,
    readStream (Toy.linux Toy.fs_second) 2 "c" Toy.two Toy.no_size [1; 0]%nat = Some start /\
    [Toy.h1; Toy.h2] !! 1%nat = Some d /\
    forall w, exists s w0,
      new_PassThrough (Toy.linux Toy.fs_second) w = (s, w0) /\
      start w = (Return (s, readStream_chain (Toy.linux Toy.fs_second) Toy.no_size s resolved),
                 w0) /\
      readStream_chain (Toy.linux Toy.fs_second) Toy.no_size s resolved []
      = match pipe_verified (Toy.linux Toy.fs_second)
                (VString (contentPath (Toy.linux Toy.fs_second) "c" d)) (VHash d)
                (opts_size Toy.no_size) s
                [Toy.EvLstat "c/sha1/cd"; Toy.EvLstat "c/sha1/ab"] with
        | (Rejected e, w3) =>
            settle (bind (emit_error (Toy.linux Toy.fs_second) s e)
                      (fun _ => ret VUndefined)) w3
        | (o, w3) => (o, w3)
        end.
Proof.
  apply (readStream_pipes_earliest_present (Toy.linux Toy.fs_second)
           (toy_entry_law "linux" Toy.fs_second true) 0 "c" Toy.two [1; 0]%nat
           Toy.both "sha1" [Toy.h1; Toy.h2] eq_refl eq_refl eq_refl (le_n 2)
           Toy.no_size [] [Toy.EvLstat "c/sha1/cd"; Toy.EvLstat "c/sha1/ab"]
           [Toy.fs_err "ENOENT" "c/sha1/ab"]
           (VObject [("cpath", VString "c/sha1/cd"); ("sri", VHash Toy.h2);
                     ("stat", VStat (mkStats 2))]) []
           (toy_lstat_rejects_errors _ _ _)).
  reflexivity.
Defined.

(** ** Blocking copy on several candidates *)

Section CopySeveral.

Context {World : Type} (E : Env World).
Hypothesis law : entry_law E.

Variables (fuel : nat) (cache : string) (integrity : sri_input) (dest : string)
  (opts : ReadOpts) (sri : Integrity) (algo : string) (ds : list Hash).

Hypothesis parsed : parse E integrity = Return sri.
Hypothesis picked : pickAlgorithm E sri = Return algo.
Hypothesis listed : sri_get sri algo = Some ds.
Hypothesis several : (1 < length ds)%nat.

(** X13. [copySync], several candidates: the contents are copied to the
    destination one candidate after the other, in the order of the
    descriptor, until a copy succeeds; the operation then returns
    [undefined], in the world that copy left, and the later candidates are
    not copied.  The success is not lost for being falsy, as it is in
    [copy]. *)
Theorem copySync_stops_at_first_copy (pre : list Hash) (d : Hash) (post : list Hash)
    (w w1 w2 : World) (es : list value) :
  ds = (pre ++ d :: post)%list ->
  all_throw E cache (copySync_fn E dest) pre w es w1 ->
  copyFileSync E (contentPath E cache d) dest w1 = (Return tt, w2) ->
  exists run,
    copySync E (S (S fuel)) cache integrity dest opts = Some run /\
    run w = (Return VUndefined, w2).
Proof.
  intros Hds Hpre Hcopy. eexists. split.
  - unfold copySync. eapply withContentSriSync_multi; eassumption.
  - rewrite Hds, fmap_app.
    rewrite (for_of_try_skips E cache (copySync_fn E dest) pre w w1 es Hpre).
    cbn [fmap list_fmap for_of_try].
    unfold copySync_fn at 1. unfold bind, ret. rewrite Hcopy. reflexivity.
Qed.

End CopySeveral.

Lemma copySync_stops_at_first_copy_witness :
  exists run,
    copySync (Toy.linux Toy.fs_both) 2 "c"
      (SriIntegrity [("sha1", [mkHash "sha1" "zz" []; Toy.h1; Toy.h2])])
      "dst" Toy.no_size = Some run /\
    run [] = (Return VUndefined,
              [Toy.EvCopyFile "c/sha1/zz" "dst"; Toy.EvCopyFile "c/sha1/ab" "dst"]).
Proof.
  apply (copySync_stops_at_first_copy (Toy.linux Toy.fs_both)
           (toy_entry_law "linux" Toy.fs_both true) 0 "c"
           (SriIntegrity [("sha1", [mkHash "sha1" "zz" []; Toy.h1; Toy.h2])])
           "dst" Toy.no_size
           [("sha1", [mkHash "sha1" "zz" []; Toy.h1; Toy.h2])] "sha1"
           [mkHash "sha1" "zz" []; Toy.h1; Toy.h2]
           eq_refl eq_refl eq_refl (le_S 2 2 (le_n 2))
           [mkHash "sha1" "zz" []] Toy.h1 [Toy.h2]
           [] [Toy.EvCopyFile "c/sha1/zz" "dst"]
           [Toy.EvCopyFile "c/sha1/zz" "dst"; Toy.EvCopyFile "c/sha1/ab" "dst"]
           [Toy.fs_error "ENOENT" "c/sha1/zz"]).
  - reflexivity.
  - eapply all_throw_cons; [reflexivity | apply all_throw_nil].
  - reflexivity.
Defined.
